(** * Needleman-Wunsch edit distance: the four engines of
      [Needleman-Wunsch-recmemo.c] and their properties.

    Modelling conventions.
    - A sequence ([char *] with its length) is a [list ascii]; its length
      argument is the length of the list.  A read at index [length s] gives
      the terminating NUL of the C string (the memoized engine reads [X[M]]
      and [Y[N]] without using them); a read further out is out of bounds.
    - [long] values are integers [Z]; the [int] locals [prev_value] and
      [delta] of the iterative and cache-aware engines narrow through
      [to_int].  Array indices, lengths and loop counters are [nat]: an
      [int] counter compared with a [size_t] bound is exact below 2^31
      turns.  The theorems on the iterative and the cache-aware engine
      assume [fits_int]: lengths for which every table value, at most twice
      the sum of the two lengths, fits an [int].
    - An array ([long tab[..]], [long col[..]], [long **memo]) is a list
      read and written by index; an access outside the array is undefined
      behaviour in C and yields [OutOfBounds] here.
    - A loop or recursion that the source does not bound takes a budget
      (fuel); exhausting it yields [OutOfFuel]. *)

From Stdlib Require Import ZArith Ascii String Lia.
From stdpp Require Import base numbers list.

Local Open Scope Z_scope.

(** ** Outcome of a run *)

Inductive result (A : Type) : Type :=
| Done (a : A)
| OutOfBounds
| OutOfFuel.
Arguments Done {A} a.
Arguments OutOfBounds {A}.
Arguments OutOfFuel {A}.

#[global] Instance result_bind : MBind result := fun A B k r =>
  match r with
  | Done a => k a
  | OutOfBounds => OutOfBounds
  | OutOfFuel => OutOfFuel
  end.

#[global] Instance result_fmap : FMap result := fun A B f r =>
  x ← r; Done (f x).

(** ** Arrays and strings *)

Definition read {A : Type} (l : list A) (i : nat) : result A :=
  match l !! i with
  | Some v => Done v
  | None => OutOfBounds
  end.

Definition write {A : Type} (l : list A) (i : nat) (v : A) : result (list A) :=
  if decide (i < length l)%nat then Done (<[i := v]> l) else OutOfBounds.

(** [s[i]] for a NUL-terminated C string holding the characters [s]. *)
Definition char_at (s : list ascii) (i : nat) : result ascii :=
  read (s ++ [Ascii.zero]) i.

(** [for (k = lo; k < lo + cnt; k++) body] over a state [St]. *)
Fixpoint for_range {St : Type} (lo cnt : nat) (body : nat -> St -> result St)
    (s : St) : result St :=
  match cnt with
  | O => Done s
  | S cnt' => s' ← body lo s; for_range (S lo) cnt' body s'
  end.

(** ** Machine integers *)

(** Conversion to a 32-bit [int] (two's complement wrap-around). *)
Definition to_int (z : Z) : Z := (z + 2 ^ 31) mod 2 ^ 32 - 2 ^ 31.

(** Conversion to a 64-bit [unsigned long] ([size_t]). *)
Definition to_ulong (z : Z) : Z := z mod 2 ^ 64.

(** ** Costs ([Needleman-Wunsch-recmemo.h]) *)

Definition SUBSTITUTION_COST : Z := 1.
Definition SUBSTITUTION_UNKNOWN_COST : Z := 1.
Definition INSERTION_COST : Z := 2.
Definition NOT_YET_COMPUTED : Z := -1.

(** ** The base classifier

    [characters_to_base.h] is not part of the sources at hand: the engines
    are parametrized by its three tests. *)

Class BaseClassifier : Type := {
  isBase : ascii -> bool;
  isUnknownBase : ascii -> bool;
  isSameBase : ascii -> ascii -> bool
}.

(** Modelled from the spec: the classifier of [characters_to_base.h], which
    is missing.  Canonical bases are A, C, G, T, the unknown base is N, every
    other character is not a base; two characters are the same base when
    they are the same base symbol. *)
Definition acgtn_classifier : BaseClassifier := {|
  isBase c :=
    (Ascii.eqb c "A" || Ascii.eqb c "C" || Ascii.eqb c "G" || Ascii.eqb c "T"
     || Ascii.eqb c "N")%bool%char;
  isUnknownBase c := Ascii.eqb c "N"%char;
  isSameBase c1 c2 := Ascii.eqb c1 c2
|}.

(** Sequence literals. *)
Definition seq_of (s : string) : list ascii := list_ascii_of_string s.

Section Engines.
Context {BC : BaseClassifier}.

(** ** The recurrence *)

Definition ins_cost (c : ascii) : Z := if isBase c then INSERTION_COST else 0.

(** Substitution cost of the memoized engine (lines 81-82). *)
Definition sub_cost_memo (x y : ascii) : Z :=
  if isUnknownBase x then SUBSTITUTION_UNKNOWN_COST
  else if isSameBase x y then 0 else SUBSTITUTION_COST.

(** Mismatch cost of the three iterative engines (lines 216, 298, 400). *)
Definition sub_cost_iter (x y : ascii) : Z := Z.b2z (negb (isSameBase x y)).

(** Substitution cost in the words of section 4.1 of the specification:
    0 for the same known base, the unknown-substitution cost if either
    character is the unknown base, the standard substitution cost
    otherwise. *)
Definition sub_cost_spec (x y : ascii) : Z :=
  if (isSameBase x y && negb (isUnknownBase x) && negb (isUnknownBase y))%bool
  then 0
  else if (isUnknownBase x || isUnknownBase y)%bool
       then SUBSTITUTION_UNKNOWN_COST
       else SUBSTITUTION_COST.

(** [phi sub xs ys]: the recurrence of the memoized engine on the remaining
    suffixes [xs = X[i..M)] and [ys = Y[j..N)], for a substitution cost
    [sub]. *)
Fixpoint phi (sub : ascii -> ascii -> Z) (xs : list ascii) : list ascii -> Z :=
  fix phi_ys (ys : list ascii) : Z :=
    match xs, ys with
    | [], [] => 0
    | [], y :: ys' => ins_cost y + phi_ys ys'
    | x :: xs', [] => ins_cost x + phi sub xs' []
    | x :: xs', y :: ys' =>
        if negb (isBase x) then phi sub xs' ys
        else if negb (isBase y) then phi_ys ys'
        else Z.min (Z.min (sub x y + phi sub xs' ys')
                          (INSERTION_COST + phi sub xs' ys))
                   (INSERTION_COST + phi_ys ys')
    end.

(** The recurrence of section 4.1, indexed by positions. *)
Definition phi_spec (X Y : list ascii) (i j : nat) : Z :=
  phi sub_cost_spec (drop i X) (drop j Y).

(** Plain edit distance between sequences of bases, and the distance
    between two sequences once their non-base characters are removed. *)
Fixpoint lev (sub : ascii -> ascii -> Z) (xs : list ascii) : list ascii -> Z :=
  fix lev_ys (ys : list ascii) : Z :=
    match xs, ys with
    | [], [] => 0
    | [], _ :: ys' => INSERTION_COST + lev_ys ys'
    | _ :: xs', [] => INSERTION_COST + lev sub xs' []
    | x :: xs', y :: ys' =>
        Z.min (Z.min (sub x y + lev sub xs' ys')
                     (INSERTION_COST + lev sub xs' ys))
              (INSERTION_COST + lev_ys ys')
    end.

Definition bases (s : list ascii) : list ascii := filter (fun c => isBase c = true) s.

Definition dist (sub : ascii -> ascii -> Z) (xs ys : list ascii) : Z :=
  lev sub (bases xs) (bases ys).

(** ** Sequence orderer (lines 110-123, repeated in every entry point) *)

Definition order (A B : list ascii) : list ascii * list ascii :=
  if (length B <=? length A)%nat then (A, B) else (B, A).

(** ** Memoized recursive engine *)

Record NW_MemoContext : Type := {
  ctx_X : list ascii;
  ctx_Y : list ascii;
  ctx_M : nat;
  ctx_N : nat
}.

(** The mutable part: the table [memo[0..M][0..N]] and the characters
    passed to [ManageBaseError] so far. *)
Record memo_state : Type := {
  memo : list (list Z);
  reported : list ascii
}.

Definition read2 (m : list (list Z)) (i j : nat) : result Z :=
  row ← read m i; read row j.

Definition write2 (m : list (list Z)) (i j : nat) (v : Z) : result (list (list Z)) :=
  row ← read m i; row' ← write row j v; write m i row'.

Definition ManageBaseError (c : ascii) (s : memo_state) : memo_state :=
  {| memo := memo s; reported := reported s ++ [c] |}.

Fixpoint EditDistance_NW_RecMemo (fuel : nat) (c : NW_MemoContext) (i j : nat)
    (s : memo_state) : result (Z * memo_state) :=
  match fuel with
  | O => OutOfFuel
  | S fuel' =>
      v ← read2 (memo s) i j;
      if v =? NOT_YET_COMPUTED then
        Xi ← char_at (ctx_X c) i;
        Yj ← char_at (ctx_Y c) j;
        '(res, s1) ←
          (if (i =? ctx_M c)%nat then
             if (j =? ctx_N c)%nat then Done (0, s)
             else
               '(r, s1) ← EditDistance_NW_RecMemo fuel' c i (j + 1) s;
               Done ((if isBase Yj then INSERTION_COST else 0) + r, s1)
           else if (j =? ctx_N c)%nat then
             '(r, s1) ← EditDistance_NW_RecMemo fuel' c (i + 1) j s;
             Done ((if isBase Xi then INSERTION_COST else 0) + r, s1)
           else if negb (isBase Xi) then
             EditDistance_NW_RecMemo fuel' c (i + 1) j (ManageBaseError Xi s)
           else if negb (isBase Yj) then
             EditDistance_NW_RecMemo fuel' c i (j + 1) (ManageBaseError Yj s)
           else
             '(r1, s1) ← EditDistance_NW_RecMemo fuel' c (i + 1) (j + 1) s;
             let min := (if isUnknownBase Xi then SUBSTITUTION_UNKNOWN_COST
                         else if isSameBase Xi Yj then 0 else SUBSTITUTION_COST)
                        + r1 in
             '(r2, s2) ← EditDistance_NW_RecMemo fuel' c (i + 1) j s1;
             let cas2 := INSERTION_COST + r2 in
             let min := if cas2 <? min then cas2 else min in
             '(r3, s3) ← EditDistance_NW_RecMemo fuel' c i (j + 1) s2;
             let cas3 := INSERTION_COST + r3 in
             let min := if cas3 <? min then cas3 else min in
             Done (min, s3));
        memo' ← write2 (memo s1) i j res;
        v' ← read2 memo' i j;
        Done (v', {| memo := memo'; reported := reported s1 |})
      else Done (v, s)
  end.

(** Entry point.  Every recursive call increases [i + j], which never
    exceeds [M + N]: the recursion budget is [M + N + 1]. *)
Definition EditDistance_NW_Rec_run (A B : list ascii) : result (Z * list ascii) :=
  let '(X, Y) := order A B in
  let M := length X in
  let N := length Y in
  let c := {| ctx_X := X; ctx_Y := Y; ctx_M := M; ctx_N := N |} in
  let s := {| memo := replicate (M + 1) (replicate (N + 1) NOT_YET_COMPUTED);
              reported := [] |} in
  '(res, s') ← EditDistance_NW_RecMemo (S (M + N)) c 0 0 s;
  Done (res, reported s').

Definition EditDistance_NW_Rec (A B : list ascii) : result Z :=
  fst <$> (EditDistance_NW_Rec_run A B).

(** ** The cell update shared by the three iterative engines

    Lines 202-221, 285-302 and 387-404 are the same text up to the index of
    the [Y] character and the type of [prev_value] and [delta] ([int] in the
    iterative and cache-aware engines, [long] in the helper): [narrow] is the
    conversion to that type, [ix] and [iy] the indices [M - i] and
    [N - j (- debut_seq)]. *)

Definition at_index (z : Z) : result nat :=
  if z <? 0 then OutOfBounds else Done (Z.to_nat z).

Definition update_cell (narrow : Z -> Z) (X : list ascii) (ix : Z)
    (Y : list ascii) (iy : Z) (j : nat) (st : list Z * Z) : result (list Z * Z) :=
  let '(tab, prev_value) := st in
  ky ← at_index iy;
  y ← char_at Y ky;
  if negb (isBase y) then
    tj ← read tab j;
    let prev_value := narrow tj in
    tj1 ← read tab (j - 1);
    tab ← write tab j tj1;
    Done (tab, prev_value)
  else
    kx ← at_index ix;
    x ← char_at X kx;
    if negb (isBase x) then
      tj ← read tab j;
      Done (tab, narrow tj)
    else
      tj ← read tab j;
      tj1 ← read tab (j - 1);
      let min := if tj <? tj1 then tj else tj1 in
      let min := min + INSERTION_COST in
      let delta := narrow (Z.b2z (negb (isSameBase x y))) in
      let delta := narrow (delta + prev_value) in
      let prev_value := narrow tj in
      tab ← write tab j (if min <? delta then min else delta);
      Done (tab, prev_value).

(** ** Iterative row engine (lines 164-225) *)

Definition EditDistance_NW_iteratif (A B : list ascii) : result Z :=
  let '(X, Y) := order A B in
  let M := length X in
  let N := length Y in
  let tab := replicate (N + 1) 0 in
  tab ← write tab 0 0;
  tab ← for_range 1 N (fun j tab =>
           t ← read tab (j - 1);
           ky ← at_index (Z.of_nat N - Z.of_nat j);
           y ← char_at Y ky;
           write tab j (t + Z.b2z (isBase y) * 2)) tab;
  tab ← for_range 1 M (fun i tab =>
           t0 ← read tab 0;
           let prev_value := to_int t0 in
           kx ← at_index (Z.of_nat M - Z.of_nat i);
           x ← char_at X kx;
           tab ← write tab 0 (t0 + 2 * Z.b2z (isBase x));
           '(tab, _) ← for_range 1 N (fun j st =>
               update_cell to_int X (Z.of_nat M - Z.of_nat i)
                           Y (Z.of_nat N - Z.of_nat j) j st) (tab, prev_value);
           Done tab) tab;
  read tab N.

(** ** Cache-aware tiled engine (lines 231-311) *)

(** [nb_case = (int)Z / (5 * sizeof(long))]: the division is done in
    [unsigned long] ([sizeof(long)] is 8), its result converted to [int]. *)
Definition nb_case_of (Zb : Z) : Z := to_int (to_ulong Zb / to_ulong (5 * 8)).

(** One turn of [while (N > 0)] (lines 268-307); the state is the running
    [N] and the arrays [tab] and [col]. *)
Definition cache_aware_block (X Y : list ascii) (M : nat) (nb_case : Z)
    (st : Z * list Z * list Z) : result (Z * list Z * list Z) :=
  let '(N, tab, col) := st in
  let bordure := if N <? nb_case then N else nb_case in
  c0 ← read col 0;
  tab ← write tab 0 c0;
  tab ← for_range 1 (Z.to_nat bordure) (fun j tab =>
           t ← read tab (j - 1);
           ky ← at_index (N - Z.of_nat j);
           y ← char_at Y ky;
           write tab j (t + Z.b2z (isBase y) * 2)) tab;
  kb ← at_index bordure;
  tb ← read tab kb;
  col ← write col 0 tb;
  '(tab, col) ← for_range 1 M (fun i '(tab, col) =>
           t0 ← read tab 0;
           let prev_value := to_int t0 in
           ci ← read col i;
           tab ← write tab 0 ci;
           '(tab, _) ← for_range 1 (Z.to_nat bordure) (fun j st =>
               update_cell to_int X (Z.of_nat M - Z.of_nat i)
                           Y (N - Z.of_nat j) j st) (tab, prev_value);
           tb ← read tab kb;
           col ← write col i tb;
           Done (tab, col)) (tab, col);
  Done (N - nb_case, tab, col).

Fixpoint cache_aware_loop (fuel : nat) (X Y : list ascii) (M : nat) (nb_case : Z)
    (st : Z * list Z * list Z) : result (list Z) :=
  if 0 <? st.1.1 then
    match fuel with
    | O => OutOfFuel
    | S fuel' =>
        st' ← cache_aware_block X Y M nb_case st;
        cache_aware_loop fuel' X Y M nb_case st'
    end
  else Done st.2.

(** Whether [fuel] turns are enough for [while (N > 0) { ...; N = N - nb_case; }]
    to finish. *)
Fixpoint blocks_done (fuel : nat) (N nb_case : Z) : bool :=
  if 0 <? N then
    match fuel with
    | O => false
    | S fuel' => blocks_done fuel' (N - nb_case) nb_case
    end
  else true.

Definition EditDistance_NW_cache_aware (fuel : nat) (A B : list ascii) (Zb : Z)
    : result Z :=
  let '(X, Y) := order A B in
  let M := length X in
  let nb_case := nb_case_of Zb in
  let N := Z.of_nat (length Y) in
  let tab := replicate (Z.to_nat (nb_case + 1)) 0 in
  let col := replicate (M + 1) 0 in
  tab ← write tab 0 0;
  col ← write col 0 0;
  col ← for_range 1 M (fun i col =>
           c ← read col (i - 1);
           kx ← at_index (Z.of_nat M - Z.of_nat i);
           x ← char_at X kx;
           write col i (c + Z.b2z (isBase x) * 2)) col;
  col ← cache_aware_loop fuel X Y M nb_case (N, tab, col);
  read col M.

(** ** Cache-oblivious recursive engine (lines 316-410) *)

(** The [else] branch of the helper (lines 369-409): the sub-range
    [debut_seq, fin_seq) is evaluated directly. *)
Definition cache_oblivious_base (X : list ascii) (M : nat) (Y : list ascii)
    (N : nat) (col : list Z) (debut_seq fin_seq : Z) : result (list Z) :=
  let taille := fin_seq - debut_seq in
  let tab := replicate (Z.to_nat (taille + 1)) 0 in
  c0 ← read col 0;
  tab ← write tab 0 c0;
  tab ← for_range 1 (Z.to_nat taille) (fun j tab =>
           t ← read tab (j - 1);
           ky ← at_index (Z.of_nat N - Z.of_nat j - debut_seq);
           y ← char_at Y ky;
           write tab j (t + Z.b2z (isBase y) * 2)) tab;
  kf ← at_index fin_seq;
  tf ← read tab kf;
  col ← write col 0 tf;
  '(_, col) ← for_range 1 M (fun i '(tab, col) =>
           t0 ← read tab 0;
           let prev_value := t0 in
           ci ← read col i;
           tab ← write tab 0 ci;
           '(tab, _) ← for_range 1 (Z.to_nat taille) (fun j st =>
               update_cell (fun z => z) X (Z.of_nat M - Z.of_nat i)
                           Y (Z.of_nat N - Z.of_nat j - debut_seq) j st)
               (tab, prev_value);
           kt ← at_index taille;
           tt ← read tab kt;
           col ← write col i tt;
           Done (tab, col)) (tab, col);
  Done col.

Fixpoint cache_oblivious_helper (fuel : nat) (X : list ascii) (M : nat)
    (Y : list ascii) (N : nat) (col : list Z) (seuil : Z)
    (debut_seq fin_seq : Z) : result (list Z) :=
  match fuel with
  | O => OutOfFuel
  | S fuel' =>
      let taille := fin_seq - debut_seq in
      if seuil <? taille then
        let milieu := Z.quot taille 2 in
        let milieu := milieu + debut_seq in
        col ← cache_oblivious_helper fuel' X M Y N col seuil debut_seq milieu;
        cache_oblivious_helper fuel' X M Y N col seuil milieu fin_seq
      else cache_oblivious_base X M Y N col debut_seq fin_seq
  end.

Definition EditDistance_NW_cache_oblivious (fuel : nat) (A B : list ascii)
    (seuil : Z) : result Z :=
  let '(X, Y) := order A B in
  let M := length X in
  let N := length Y in
  let col := replicate (M + 1) 0 in
  col ← write col 0 0;
  col ← for_range 1 M (fun i col =>
           c ← read col (i - 1);
           kx ← at_index (Z.of_nat M - Z.of_nat i);
           x ← char_at X kx;
           write col i (c + Z.b2z (isBase x) * 2)) col;
  col ← cache_oblivious_helper fuel X M Y N col seuil 0 (Z.of_nat N);
  read col M.

End Engines.

(** ** Invariant of the memoized engine *)

Section MemoInvariant.
Context {BC : BaseClassifier}.

(** Invariant of the memo table for the sequences [X] and [Y]: (M+1) rows of
    (N+1) cells, each cell the sentinel or the value of the recurrence. *)
Definition memo_ok (X Y : list ascii) (m : list (list Z)) : Prop :=
  length m = S (length X) /\
  forall i row, m !! i = Some row ->
    length row = S (length Y) /\
    forall j v, row !! j = Some v ->
      v = NOT_YET_COMPUTED \/ v = phi sub_cost_memo (drop i X) (drop j Y).

End MemoInvariant.

(** ** Invariants of the iterative engines

    The table of the iterative engines is mirror-indexed: row [i], column [j]
    holds the distance between the last [i] characters of [X] and the last
    [j] characters of [Y].  Within a block whose first column is the suffix
    [drop Nr Y], column [q] of the block is the suffix [drop (Nr - q) Y]. *)

Section Invariants.
Context {BC : BaseClassifier}.
Variables X Y : list ascii.

(** The cells [lo <= q < hi] of [tab] hold row [xs]. *)
Definition cells (xs : list ascii) (Nr lo hi : nat) (tab : list Z) : Prop :=
  forall q, (lo <= q < hi)%nat ->
    tab !! q = Some (dist sub_cost_iter xs (drop (Nr - q) Y)).

(** Inner loop at column [k] of a block of width [w], for the row
    [x :: xs]: the columns before [k] hold the new row, the others the
    previous row [xs], and [prev_value] is the previous row at [k - 1]. *)
Definition row_inv (x : ascii) (xs : list ascii) (Nr w len : nat)
    (k : nat) (st : list Z * Z) : Prop :=
  length st.1 = len /\
  cells (x :: xs) Nr 0 k st.1 /\
  cells xs Nr k (S w) st.1 /\
  st.2 = dist sub_cost_iter xs (drop (Nr - (k - 1)) Y).

(** The boundary array: entries before row [i] are at column [Nr - w] (the
    block is done for them), the others still at column [Nr]. *)
Definition col_inv (Nr w i : nat) (col : list Z) : Prop :=
  length col = S (length X) /\
  (forall r, (r < i)%nat -> (r <= length X)%nat ->
     col !! r = Some (dist sub_cost_iter (drop (length X - r) X) (drop (Nr - w) Y))) /\
  (forall r, (i <= r <= length X)%nat ->
     col !! r = Some (dist sub_cost_iter (drop (length X - r) X) (drop Nr Y))).

(** Row loop of a block at row [i]: [tab] holds row [i - 1] of the block. *)
Definition block_inv (Nr w len : nat) (i : nat) (st : list Z * list Z) : Prop :=
  length st.1 = len /\
  cells (drop (length X - (i - 1)) X) Nr 0 (S w) st.1 /\
  col_inv Nr w i st.2.

End Invariants.

(** ** The recurrence of section 4.1 and assumptions on the classifier *)

Section Specification.
Context {BC : BaseClassifier}.

(** Section 4.1 of the specification, for a function [f] of the positions
    [(i, j)] in the ordered pair [(X, Y)]: [f M N = 0]; on the boundaries the
    cost of the character is added; a non-base character of [X] or of [Y]
    advances the index at no cost; otherwise the three-way minimum. *)
Definition recurrence_4_1 (X Y : list ascii) (f : nat -> nat -> Z) : Prop :=
  f (length X) (length Y) = 0 /\
  (forall j y, Y !! j = Some y ->
     f (length X) j = ins_cost y + f (length X) (S j)) /\
  (forall i x, X !! i = Some x ->
     f i (length Y) = ins_cost x + f (S i) (length Y)) /\
  (forall i j x y, X !! i = Some x -> Y !! j = Some y ->
     isBase x = false -> f i j = f (S i) j) /\
  (forall i j x y, X !! i = Some x -> Y !! j = Some y ->
     isBase y = false -> f i j = f i (S j)) /\
  (forall i j x y, X !! i = Some x -> Y !! j = Some y ->
     isBase x = true -> isBase y = true ->
     f i j = Z.min (Z.min (sub_cost_spec x y + f (S i) (S j))
                          (INSERTION_COST + f (S i) j))
                   (INSERTION_COST + f i (S j))).

(** The same-base test never equates a known base of [xs] with an unknown
    base of [ys]. *)
Definition known_same_is_known (xs ys : list ascii) : Prop :=
  Forall (fun x => Forall (fun y =>
    isSameBase x y = true -> isUnknownBase x = false -> isUnknownBase y = false) ys) xs.

(** The same-base test is symmetric between the characters of [xs] and
    those of [ys]. *)
Definition same_base_symmetric (xs ys : list ascii) : Prop :=
  Forall (fun x => Forall (fun y => isSameBase x y = isSameBase y x) ys) xs.

(** Characters of [xs] and [ys] that are the same base are both known or
    both unknown. *)
Definition same_base_respects_unknown (xs ys : list ascii) : Prop :=
  Forall (fun x => Forall (fun y =>
    isSameBase x y = true -> isUnknownBase x = isUnknownBase y) ys) xs.

(** An unknown base of [xs] is never the same base as a character of [ys]:
    the condition under which the mismatch cost of the iterative engines,
    which do not test [isUnknownBase], is that of the memoized engine. *)
Definition unknown_never_same (xs ys : list ascii) : Prop :=
  Forall (fun x => Forall (fun y =>
    isUnknownBase x = true -> isSameBase x y = false) ys) xs.

(** Every base of [xs] is the same base as itself. *)
Definition same_base_reflexive (xs : list ascii) : Prop :=
  Forall (fun x => isBase x = true -> isSameBase x x = true) xs.

Definition no_unknown_base (xs : list ascii) : Prop :=
  Forall (fun x => isUnknownBase x = false) xs.

(** Lengths for which every table value fits the [int] locals
    [prev_value] and [delta]. *)
Definition fits_int (A B : list ascii) : Prop :=
  2 * Z.of_nat (length A + length B) + 1 < 2 ^ 31.

End Specification.

(** * Proofs *)

(** ** The result monad, arrays and loops *)

Lemma read_Some {A : Type} (l : list A) (i : nat) (v : A) :
  l !! i = Some v -> read l i = Done v.
Proof. intros E. unfold read. by rewrite E. Qed.

Lemma read_Done {A : Type} (l : list A) (i : nat) (v : A) :
  read l i = Done v -> l !! i = Some v.
Proof. unfold read. destruct (l !! i); congruence. Qed.

Lemma read_ge {A : Type} (l : list A) (i : nat) :
  (length l <= i)%nat -> read l i = OutOfBounds.
Proof. intros Hi. unfold read. by rewrite lookup_ge_None_2. Qed.

Lemma write_lt {A : Type} (l : list A) (i : nat) (v : A) :
  (i < length l)%nat -> write l i v = Done (<[i := v]> l).
Proof. intros Hi. unfold write. by rewrite decide_True. Qed.

Lemma write_ge {A : Type} (l : list A) (i : nat) (v : A) :
  (length l <= i)%nat -> write l i v = OutOfBounds.
Proof. intros Hi. unfold write. rewrite decide_False; [done|lia]. Qed.

Lemma write_Done {A : Type} (l l' : list A) (i : nat) (v : A) :
  write l i v = Done l' -> (i < length l)%nat /\ l' = <[i := v]> l.
Proof. unfold write. case_decide; [|done]. intros [= <-]. done. Qed.

Lemma char_at_Some (s : list ascii) (i : nat) (c : ascii) :
  s !! i = Some c -> char_at s i = Done c.
Proof.
  intros E. unfold char_at. apply read_Some.
  rewrite lookup_app_l; [done|]. by eapply lookup_lt_Some.
Qed.

Lemma char_at_le (s : list ascii) (i : nat) :
  (i <= length s)%nat -> exists c, char_at s i = Done c.
Proof.
  intros Hi. unfold char_at.
  destruct ((s ++ [Ascii.zero]) !! i) as [c|] eqn:E.
  - exists c. by apply read_Some.
  - apply lookup_ge_None_1 in E. rewrite length_app in E. simpl in E. lia.
Qed.

Lemma at_index_nonneg (z : Z) : 0 <= z -> at_index z = Done (Z.to_nat z).
Proof. intros Hz. unfold at_index. destruct (Z.ltb_spec z 0); [lia|done]. Qed.

Lemma at_index_sub (n k : nat) :
  (k <= n)%nat -> at_index (Z.of_nat n - Z.of_nat k) = Done (n - k)%nat.
Proof.
  intros Hk. rewrite at_index_nonneg by lia. f_equal. lia.
Qed.

Lemma bind_Done_inv {A B : Type} (r : result A) (k : A -> result B) (b : B) :
  r ≫= k = Done b -> exists a, r = Done a /\ k a = Done b.
Proof. destruct r as [a| |]; [|done|done]. intros E. by exists a. Qed.

(** Invariant rule for [for_range]: a loop whose body keeps [P] runs to its
    end and establishes [P] at the final counter. *)
Lemma for_range_inv {St : Type} (P : nat -> St -> Prop) (body : nat -> St -> result St)
    (cnt lo : nat) (s : St) :
  P lo s ->
  (forall k s0, (lo <= k < lo + cnt)%nat -> P k s0 ->
     exists s1, body k s0 = Done s1 /\ P (S k) s1) ->
  exists s', for_range lo cnt body s = Done s' /\ P (lo + cnt)%nat s'.
Proof.
  revert lo s. induction cnt as [|cnt IH]; intros lo s H0 Hstep; simpl.
  - exists s. split; [done|]. by replace (lo + 0)%nat with lo by lia.
  - destruct (Hstep lo s) as (s1 & E1 & H1); [lia|done|].
    rewrite E1. simpl.
    destruct (IH (S lo) s1) as (s' & E' & H'); [done| |].
    + intros k s0 Hk. apply Hstep. lia.
    + exists s'. split; [done|].
      by replace (lo + S cnt)%nat with (S lo + cnt)%nat by lia.
Qed.

(** Apply the invariant rule to the first loop of the goal. *)
Tactic Notation "for_range_with" constr(P) "as" simple_intropattern(pat) :=
  match goal with
  | |- context [for_range ?lo ?cnt ?body ?s] =>
      destruct (for_range_inv P body cnt lo s) as pat
  end.

(** What a loop that ends has established. *)
Lemma for_range_Done {St : Type} (P : nat -> St -> Prop) (body : nat -> St -> result St)
    (cnt lo : nat) (s s' : St) :
  P lo s ->
  (forall k s0 s1, (lo <= k < lo + cnt)%nat -> P k s0 -> body k s0 = Done s1 ->
     P (S k) s1) ->
  for_range lo cnt body s = Done s' -> P (lo + cnt)%nat s'.
Proof.
  revert lo s. induction cnt as [|cnt IH]; intros lo s H0 Hstep; simpl.
  - intros [= <-]. by replace (lo + 0)%nat with lo by lia.
  - intros (s1 & E1 & E)%bind_Done_inv.
    replace (lo + S cnt)%nat with (S lo + cnt)%nat by lia.
    apply (IH (S lo) s1); [|intros k s0 s2 Hk; apply Hstep; lia|done].
    apply (Hstep lo s); [lia|done|done].
Qed.

Lemma to_int_small (z : Z) : - 2 ^ 31 <= z < 2 ^ 31 -> to_int z = z.
Proof. intros Hz. unfold to_int. rewrite Z.mod_small; lia. Qed.

Lemma min_ltb (a b : Z) : (if a <? b then a else b) = Z.min a b.
Proof. destruct (Z.ltb_spec a b); lia. Qed.

(** Membership in a list given by its head and tail. *)
Ltac solve_elem :=
  repeat first [ assumption | apply list_elem_of_here | apply list_elem_of_further ].

Section Recurrence.
Context {BC : BaseClassifier}.

(** ** The recurrence *)

Lemma lev_nil_l (sub : ascii -> ascii -> Z) (ys : list ascii) :
  lev sub [] ys = INSERTION_COST * Z.of_nat (length ys).
Proof.
  induction ys as [|y ys IH]; [done|].
  change (lev sub [] (y :: ys)) with (INSERTION_COST + lev sub [] ys).
  rewrite IH. simpl length. lia.
Qed.

Lemma lev_nil_r (sub : ascii -> ascii -> Z) (xs : list ascii) :
  lev sub xs [] = INSERTION_COST * Z.of_nat (length xs).
Proof.
  induction xs as [|x xs IH]; [done|].
  change (lev sub (x :: xs) []) with (INSERTION_COST + lev sub xs []).
  rewrite IH. simpl length. lia.
Qed.

Lemma lev_cons_cons (sub : ascii -> ascii -> Z) (x y : ascii) (xs ys : list ascii) :
  lev sub (x :: xs) (y :: ys) =
  Z.min (Z.min (sub x y + lev sub xs ys) (INSERTION_COST + lev sub xs (y :: ys)))
        (INSERTION_COST + lev sub (x :: xs) ys).
Proof. done. Qed.

Lemma lev_nonneg (sub : ascii -> ascii -> Z) (xs ys : list ascii) :
  (forall x y, 0 <= sub x y) -> 0 <= lev sub xs ys.
Proof.
  intros Hsub. revert ys. induction xs as [|x xs IHx]; intros ys.
  - rewrite lev_nil_l. unfold INSERTION_COST. lia.
  - induction ys as [|y ys IHy].
    + rewrite lev_nil_r. unfold INSERTION_COST. lia.
    + rewrite lev_cons_cons. specialize (Hsub x y).
      pose proof (IHx ys). pose proof (IHx (y :: ys)).
      unfold INSERTION_COST. lia.
Qed.

Lemma lev_upper (sub : ascii -> ascii -> Z) (xs ys : list ascii) :
  lev sub xs ys <= INSERTION_COST * Z.of_nat (length xs + length ys).
Proof.
  revert ys. induction xs as [|x xs IHx]; intros ys.
  - rewrite lev_nil_l. simpl. lia.
  - destruct ys as [|y ys].
    + rewrite lev_nil_r. unfold INSERTION_COST. lia.
    + rewrite lev_cons_cons. pose proof (IHx (y :: ys)).
      unfold INSERTION_COST in *. simpl length in *. lia.
Qed.

Lemma lev_ext (sub sub' : ascii -> ascii -> Z) (xs ys : list ascii) :
  (forall x y, x ∈ xs -> y ∈ ys -> sub x y = sub' x y) ->
  lev sub xs ys = lev sub' xs ys.
Proof.
  revert ys. induction xs as [|x xs IHx]; intros ys Hsub.
  - by rewrite !lev_nil_l.
  - induction ys as [|y ys IHy].
    + by rewrite !lev_nil_r.
    + rewrite !lev_cons_cons.
      rewrite (Hsub x y) by solve_elem.
      rewrite (IHx ys) by (intros ????; apply Hsub; solve_elem).
      rewrite (IHx (y :: ys)) by (intros ????; apply Hsub; solve_elem).
      rewrite IHy by (intros ????; apply Hsub; solve_elem).
      done.
Qed.

Lemma lev_sym (sub : ascii -> ascii -> Z) (xs ys : list ascii) :
  (forall x y, x ∈ xs -> y ∈ ys -> sub x y = sub y x) ->
  lev sub xs ys = lev sub ys xs.
Proof.
  revert ys. induction xs as [|x xs IHx]; intros ys Hsub.
  - by rewrite lev_nil_l, lev_nil_r.
  - induction ys as [|y ys IHy].
    + by rewrite lev_nil_l, lev_nil_r.
    + rewrite !lev_cons_cons.
      rewrite (Hsub x y) by solve_elem.
      rewrite (IHx ys) by (intros ????; apply Hsub; solve_elem).
      rewrite (IHx (y :: ys)) by (intros ????; apply Hsub; solve_elem).
      rewrite IHy by (intros ????; apply Hsub; solve_elem).
      lia.
Qed.

Lemma lev_diag (sub : ascii -> ascii -> Z) (xs : list ascii) :
  (forall x y, 0 <= sub x y) -> (forall x, x ∈ xs -> sub x x = 0) ->
  lev sub xs xs = 0.
Proof.
  intros Hpos. induction xs as [|x xs IH]; intros Hdiag; [done|].
  pose proof (lev_nonneg sub (x :: xs) (x :: xs) Hpos) as Hge.
  rewrite lev_cons_cons in *.
  rewrite (Hdiag x) in * by solve_elem.
  rewrite IH in * by (intros ??; apply Hdiag; solve_elem).
  lia.
Qed.

Lemma bases_cons_base (x : ascii) (xs : list ascii) :
  isBase x = true -> bases (x :: xs) = x :: bases xs.
Proof. intros E. unfold bases. by rewrite filter_cons_True. Qed.

Lemma bases_cons_nonbase (x : ascii) (xs : list ascii) :
  isBase x = false -> bases (x :: xs) = bases xs.
Proof. intros E. unfold bases. rewrite filter_cons_False; [done|congruence]. Qed.

Lemma bases_length (xs : list ascii) : (length (bases xs) <= length xs)%nat.
Proof. apply length_filter. Qed.

Lemma bases_elem (x : ascii) (xs : list ascii) :
  x ∈ bases xs <-> isBase x = true /\ x ∈ xs.
Proof. unfold bases. by rewrite list_elem_of_filter. Qed.

Lemma phi_cons_cons (sub : ascii -> ascii -> Z) (x y : ascii) (xs ys : list ascii) :
  phi sub (x :: xs) (y :: ys) =
  if negb (isBase x) then phi sub xs (y :: ys)
  else if negb (isBase y) then phi sub (x :: xs) ys
  else Z.min (Z.min (sub x y + phi sub xs ys)
                    (INSERTION_COST + phi sub xs (y :: ys)))
             (INSERTION_COST + phi sub (x :: xs) ys).
Proof. done. Qed.

Lemma phi_nil_cons (sub : ascii -> ascii -> Z) (y : ascii) (ys : list ascii) :
  phi sub [] (y :: ys) = ins_cost y + phi sub [] ys.
Proof. done. Qed.

Lemma phi_cons_nil (sub : ascii -> ascii -> Z) (x : ascii) (xs : list ascii) :
  phi sub (x :: xs) [] = ins_cost x + phi sub xs [].
Proof. done. Qed.

(** The recurrence computes the edit distance of the two sequences with
    their non-base characters removed. *)
Lemma phi_dist (sub : ascii -> ascii -> Z) (xs ys : list ascii) :
  phi sub xs ys = dist sub xs ys.
Proof.
  unfold dist. revert ys. induction xs as [|x xs IHx]; intros ys.
  - induction ys as [|y ys IHy]; [done|].
    rewrite phi_nil_cons, IHy. unfold ins_cost.
    destruct (isBase y) eqn:Ey.
    + by rewrite (bases_cons_base y ys Ey).
    + rewrite (bases_cons_nonbase y ys Ey). lia.
  - induction ys as [|y ys IHy].
    + rewrite phi_cons_nil, IHx. unfold ins_cost.
      destruct (isBase x) eqn:Ex.
      * by rewrite (bases_cons_base x xs Ex).
      * rewrite (bases_cons_nonbase x xs Ex). lia.
    + rewrite phi_cons_cons.
      destruct (isBase x) eqn:Ex; cbn [negb].
      * destruct (isBase y) eqn:Ey; cbn [negb].
        -- rewrite IHy, (IHx ys), (IHx (y :: ys)).
           rewrite (bases_cons_base x xs Ex), (bases_cons_base y ys Ey).
           by rewrite lev_cons_cons.
        -- rewrite IHy. by rewrite (bases_cons_nonbase y ys Ey).
      * rewrite (IHx (y :: ys)). by rewrite (bases_cons_nonbase x xs Ex).
Qed.

Lemma dist_skip_l (sub : ascii -> ascii -> Z) (x : ascii) (xs ys : list ascii) :
  isBase x = false -> dist sub (x :: xs) ys = dist sub xs ys.
Proof. intros E. unfold dist. by rewrite (bases_cons_nonbase x xs E). Qed.

Lemma dist_skip_r (sub : ascii -> ascii -> Z) (y : ascii) (xs ys : list ascii) :
  isBase y = false -> dist sub xs (y :: ys) = dist sub xs ys.
Proof. intros E. unfold dist. by rewrite (bases_cons_nonbase y ys E). Qed.

Lemma dist_nil_cons (sub : ascii -> ascii -> Z) (y : ascii) (ys : list ascii) :
  dist sub [] (y :: ys) = dist sub [] ys + Z.b2z (isBase y) * 2.
Proof.
  destruct (isBase y) eqn:E.
  - unfold dist. rewrite (bases_cons_base y ys E).
    change (bases []) with (@nil ascii). rewrite !lev_nil_l.
    unfold INSERTION_COST. simpl length. simpl Z.b2z. lia.
  - rewrite dist_skip_r by done. simpl. lia.
Qed.

Lemma dist_cons_nil (sub : ascii -> ascii -> Z) (x : ascii) (xs : list ascii) :
  dist sub (x :: xs) [] = dist sub xs [] + Z.b2z (isBase x) * 2.
Proof.
  destruct (isBase x) eqn:E.
  - unfold dist. rewrite (bases_cons_base x xs E).
    change (bases []) with (@nil ascii). rewrite !lev_nil_r.
    unfold INSERTION_COST. simpl length. simpl Z.b2z. lia.
  - rewrite dist_skip_l by done. simpl. lia.
Qed.

Lemma dist_cons_cons (sub : ascii -> ascii -> Z) (x y : ascii) (xs ys : list ascii) :
  isBase x = true -> isBase y = true ->
  dist sub (x :: xs) (y :: ys) =
  Z.min (Z.min (sub x y + dist sub xs ys) (INSERTION_COST + dist sub xs (y :: ys)))
        (INSERTION_COST + dist sub (x :: xs) ys).
Proof.
  intros Ex Ey. unfold dist.
  rewrite (bases_cons_base x xs Ex), (bases_cons_base y ys Ey).
  by rewrite lev_cons_cons.
Qed.

Lemma dist_nonneg (sub : ascii -> ascii -> Z) (xs ys : list ascii) :
  (forall x y, 0 <= sub x y) -> 0 <= dist sub xs ys.
Proof. intros Hsub. by apply lev_nonneg. Qed.

Lemma dist_upper (sub : ascii -> ascii -> Z) (xs ys : list ascii) :
  dist sub xs ys <= 2 * Z.of_nat (length xs + length ys).
Proof.
  unfold dist. pose proof (lev_upper sub (bases xs) (bases ys)) as Hu.
  pose proof (bases_length xs). pose proof (bases_length ys).
  unfold INSERTION_COST in Hu. lia.
Qed.

Lemma dist_ext (sub sub' : ascii -> ascii -> Z) (xs ys : list ascii) :
  (forall x y, x ∈ xs -> y ∈ ys -> isBase x = true -> isBase y = true ->
               sub x y = sub' x y) ->
  dist sub xs ys = dist sub' xs ys.
Proof.
  intros Hsub. unfold dist. apply lev_ext.
  intros x y [Hx ?]%bases_elem [Hy ?]%bases_elem. by apply Hsub.
Qed.

End Recurrence.

(** ** The memoized engine computes the recurrence *)

Section MemoEngine.
Context {BC : BaseClassifier}.
Variables X Y : list ascii.

Lemma memo_ok_init :
  memo_ok X Y (replicate (length X + 1) (replicate (length Y + 1) NOT_YET_COMPUTED)).
Proof.
  split.
  - rewrite length_replicate. lia.
  - intros i row [-> _]%lookup_replicate_1. split.
    + rewrite length_replicate. lia.
    + intros j v [-> _]%lookup_replicate_1. by left.
Qed.

Lemma memo_ok_read2 (m : list (list Z)) (i j : nat) :
  memo_ok X Y m -> (i <= length X)%nat -> (j <= length Y)%nat ->
  exists v, read2 m i j = Done v /\
    (v = NOT_YET_COMPUTED \/ v = phi sub_cost_memo (drop i X) (drop j Y)).
Proof.
  intros [Hlen Hrows] Hi Hj. unfold read2.
  destruct (lookup_lt_is_Some_2 m i) as [row Erow]; [lia|].
  destruct (Hrows i row Erow) as [Hrow Hcells].
  destruct (lookup_lt_is_Some_2 row j) as [v Ev]; [lia|].
  exists v. rewrite (read_Some _ _ _ Erow). simpl.
  rewrite (read_Some _ _ _ Ev). split; [done|]. by apply Hcells.
Qed.

Lemma memo_ok_write2 (m : list (list Z)) (i j : nat) :
  memo_ok X Y m -> (i <= length X)%nat -> (j <= length Y)%nat ->
  exists m', write2 m i j (phi sub_cost_memo (drop i X) (drop j Y)) = Done m' /\
    memo_ok X Y m' /\
    read2 m' i j = Done (phi sub_cost_memo (drop i X) (drop j Y)).
Proof.
  intros [Hlen Hrows] Hi Hj. unfold write2.
  destruct (lookup_lt_is_Some_2 m i) as [row Erow]; [lia|].
  destruct (Hrows i row Erow) as [Hrow Hcells].
  rewrite (read_Some _ _ _ Erow). simpl.
  rewrite write_lt by lia. simpl. rewrite write_lt by lia.
  eexists. split; [done|]. split; [split|].
  - by rewrite length_insert.
  - intros i' row' E'.
    destruct (decide (i = i')) as [<-|Hne].
    + rewrite list_lookup_insert_eq in E' by lia. injection E' as <-.
      split; [by rewrite length_insert|].
      intros j' v' Ev'.
      destruct (decide (j = j')) as [<-|Hne'].
      * rewrite list_lookup_insert_eq in Ev' by lia. injection Ev' as <-. by right.
      * rewrite list_lookup_insert_ne in Ev' by done. by apply Hcells.
    + rewrite list_lookup_insert_ne in E' by done. by apply Hrows.
  - unfold read2. rewrite (read_Some _ i (<[j:=phi sub_cost_memo (drop i X) (drop j Y)]> row)).
    + simpl. apply read_Some. apply list_lookup_insert_eq. lia.
    + apply list_lookup_insert_eq. lia.
Qed.

Lemma drop_char_at (s : list ascii) (i : nat) :
  (i < length s)%nat ->
  exists c, char_at s i = Done c /\ drop i s = c :: drop (S i) s.
Proof.
  intros Hi. destruct (lookup_lt_is_Some_2 s i Hi) as [c Ec].
  exists c. split; [by apply char_at_Some|]. by apply drop_S.
Qed.

Lemma EditDistance_NW_RecMemo_correct (fuel i j : nat) (s : memo_state) :
  (i <= length X)%nat -> (j <= length Y)%nat ->
  ((length X - i) + (length Y - j) < fuel)%nat ->
  memo_ok X Y (memo s) ->
  exists s',
    EditDistance_NW_RecMemo fuel
      {| ctx_X := X; ctx_Y := Y; ctx_M := length X; ctx_N := length Y |} i j s
    = Done (phi sub_cost_memo (drop i X) (drop j Y), s') /\
    memo_ok X Y (memo s').
Proof.
  revert i j s. induction fuel as [|fuel IH]; intros i j s Hi Hj Hfuel Hok; [lia|].
  cbn [EditDistance_NW_RecMemo ctx_X ctx_Y ctx_M ctx_N].
  destruct (memo_ok_read2 (memo s) i j Hok Hi Hj) as (v & Ev & Hv).
  rewrite Ev. cbn [mbind result_bind].
  destruct (Z.eqb_spec v NOT_YET_COMPUTED) as [Hnyc|Hnyc];
    [|destruct Hv as [?| ->]; [done|by exists s]].
  assert (Hfin : forall r s1, memo_ok X Y (memo s1) ->
            r = phi sub_cost_memo (drop i X) (drop j Y) ->
            exists s', (memo' ← write2 (memo s1) i j r;
                        v' ← read2 memo' i j;
                        Done (v', {| memo := memo'; reported := reported s1 |}))
                       = Done (phi sub_cost_memo (drop i X) (drop j Y), s') /\
                       memo_ok X Y (memo s')).
  { intros r s1 Hok1 ->.
    destruct (memo_ok_write2 (memo s1) i j Hok1 Hi Hj) as (m' & Ew & Hok' & Er).
    rewrite Ew. cbn [mbind result_bind]. rewrite Er. cbn [mbind result_bind].
    eexists. split; [done|done]. }
  destruct (Nat.eqb_spec i (length X)) as [HiM|HiM].
  - (* end of X *)
    destruct (char_at_le X i Hi) as [Xi EXi]. rewrite EXi. cbn [mbind result_bind].
    destruct (Nat.eqb_spec j (length Y)) as [HjN|HjN].
    + destruct (char_at_le Y j Hj) as [Yj EYj]. rewrite EYj. cbn [mbind result_bind].
      apply Hfin; [done|]. subst i j. by rewrite !drop_all.
    + destruct (drop_char_at Y j) as (Yj & EYj & Hdrop); [lia|].
      rewrite EYj. cbn [mbind result_bind].
      destruct (IH i (j + 1)%nat s) as (s1 & E1 & Hok1); [lia|lia|lia|done|].
      rewrite E1. cbn [mbind result_bind].
      apply Hfin; [done|]. subst i. rewrite Hdrop, drop_all, phi_nil_cons.
      unfold ins_cost. by replace (j + 1)%nat with (S j) by lia.
  - destruct (drop_char_at X i) as (Xi & EXi & HdropX); [lia|].
    rewrite EXi. cbn [mbind result_bind].
    destruct (Nat.eqb_spec j (length Y)) as [HjN|HjN].
    + (* end of Y but not end of X *)
      destruct (char_at_le Y j Hj) as [Yj EYj]. rewrite EYj. cbn [mbind result_bind].
      destruct (IH (i + 1)%nat j s) as (s1 & E1 & Hok1); [lia|lia|lia|done|].
      rewrite E1. cbn [mbind result_bind].
      apply Hfin; [done|]. subst j. rewrite HdropX, drop_all, phi_cons_nil.
      unfold ins_cost. by replace (i + 1)%nat with (S i) by lia.
    + destruct (drop_char_at Y j) as (Yj & EYj & HdropY); [lia|].
      rewrite EYj. cbn [mbind result_bind].
      assert (Hphi := phi_cons_cons sub_cost_memo Xi Yj (drop (S i) X) (drop (S j) Y)).
      rewrite <- HdropX, <- HdropY in Hphi.
      replace (S i) with (i + 1)%nat in * by lia.
      replace (S j) with (j + 1)%nat in * by lia.
      destruct (isBase Xi) eqn:EbX; cbn [negb] in *.
      * destruct (isBase Yj) eqn:EbY; cbn [negb] in *.
        -- destruct (IH (i + 1)%nat (j + 1)%nat s) as (s1 & E1 & Hok1);
             [lia|lia|lia|done|].
           rewrite E1. cbn [mbind result_bind].
           destruct (IH (i + 1)%nat j s1) as (s2 & E2 & Hok2); [lia|lia|lia|done|].
           rewrite E2. cbn [mbind result_bind].
           destruct (IH i (j + 1)%nat s2) as (s3 & E3 & Hok3); [lia|lia|lia|done|].
           rewrite E3. cbn [mbind result_bind].
           apply Hfin; [done|]. rewrite Hphi. unfold sub_cost_memo.
           rewrite !min_ltb. lia.
        -- destruct (IH i (j + 1)%nat (ManageBaseError Yj s)) as (s1 & E1 & Hok1);
             [lia|lia|lia|done|].
           rewrite E1. cbn [mbind result_bind]. by apply Hfin.
      * destruct (IH (i + 1)%nat j (ManageBaseError Xi s)) as (s1 & E1 & Hok1);
          [lia|lia|lia|done|].
        rewrite E1. cbn [mbind result_bind]. by apply Hfin.
Qed.

End MemoEngine.

Section MemoEntry.
Context {BC : BaseClassifier}.

(** The memoized engine returns the recurrence at [(0, 0)] on the ordered
    pair of sequences. *)
Lemma EditDistance_NW_Rec_phi (A B : list ascii) :
  EditDistance_NW_Rec A B =
  Done (phi sub_cost_memo (order A B).1 (order A B).2).
Proof.
  unfold EditDistance_NW_Rec, EditDistance_NW_Rec_run.
  destruct (order A B) as [X Y]. cbn [fst snd].
  destruct (EditDistance_NW_RecMemo_correct X Y (S (length X + length Y)) 0 0
              {| memo := replicate (length X + 1)
                           (replicate (length Y + 1) NOT_YET_COMPUTED);
                 reported := [] |}) as (s' & E & _);
    [lia|lia|lia|apply memo_ok_init|].
  rewrite !drop_0 in E. rewrite E. done.
Qed.

End MemoEntry.

(** ** Rows of the iterative engines *)

Section Rows.
Context {BC : BaseClassifier}.
Variables X Y : list ascii.
Variable narrow : Z -> Z.
Hypothesis narrow_id :
  forall z, 0 <= z <= 2 * Z.of_nat (length X + length Y) + 1 -> narrow z = z.

Lemma sub_cost_iter_range (x y : ascii) : 0 <= sub_cost_iter x y <= 1.
Proof. unfold sub_cost_iter. destruct (isSameBase x y); simpl; lia. Qed.

Lemma dist_iter_range (p q : nat) :
  0 <= dist sub_cost_iter (drop p X) (drop q Y)
    <= 2 * Z.of_nat (length X + length Y).
Proof.
  split.
  - apply dist_nonneg. intros x y. apply sub_cost_iter_range.
  - pose proof (dist_upper sub_cost_iter (drop p X) (drop q Y)) as Hu.
    rewrite !length_drop in Hu. lia.
Qed.

Lemma narrow_dist (p q : nat) :
  narrow (dist sub_cost_iter (drop p X) (drop q Y))
  = dist sub_cost_iter (drop p X) (drop q Y).
Proof. apply narrow_id. pose proof (dist_iter_range p q). lia. Qed.

(** One cell of the inner loop re-establishes the row invariant. *)
Lemma update_cell_row (p Nr w len k : nat) (x : ascii) (ix iy : Z) (st : list Z * Z) :
  X !! p = Some x -> ix = Z.of_nat p ->
  (1 <= k <= w)%nat -> (w <= Nr <= length Y)%nat -> (w < len)%nat ->
  iy = Z.of_nat (Nr - k) ->
  row_inv Y x (drop (S p) X) Nr w len k st ->
  exists st', update_cell narrow X ix Y iy k st = Done st' /\
              row_inv Y x (drop (S p) X) Nr w len (S k) st'.
Proof.
  intros Ex -> Hk Hw Hlen -> (Hl & Hnew & Hold & Hprev).
  destruct st as [tab prev]. cbn [fst snd] in *.
  destruct (lookup_lt_is_Some_2 Y (Nr - k)) as [y Ey]; [lia|].
  assert (Hdy : drop (Nr - k) Y = y :: drop (Nr - (k - 1)) Y).
  { rewrite (drop_S _ _ _ Ey). f_equal. f_equal. lia. }
  assert (Hdx : drop p X = x :: drop (S p) X) by by apply drop_S.
  assert (Etj : tab !! k = Some (dist sub_cost_iter (drop (S p) X) (drop (Nr - k) Y)))
    by (apply Hold; lia).
  assert (Etj1 : tab !! (k - 1)%nat
                 = Some (dist sub_cost_iter (x :: drop (S p) X) (drop (Nr - (k - 1)) Y)))
    by (apply Hnew; lia).
  assert (Hcells : forall v,
    v = dist sub_cost_iter (x :: drop (S p) X) (drop (Nr - k) Y) ->
    row_inv Y x (drop (S p) X) Nr w len (S k)
      (<[k := v]> tab, dist sub_cost_iter (drop (S p) X) (drop (Nr - k) Y))).
  { intros v ->. repeat split; cbn [fst snd].
    - by rewrite length_insert.
    - intros q Hq. destruct (decide (q = k)) as [->|Hne].
      + rewrite list_lookup_insert_eq by lia. done.
      + rewrite list_lookup_insert_ne by done. apply Hnew. lia.
    - intros q Hq. rewrite list_lookup_insert_ne by lia. apply Hold. lia.
    - do 3 f_equal. lia. }
  unfold update_cell.
  rewrite !at_index_nonneg by lia. rewrite !Nat2Z.id. cbn [mbind result_bind].
  rewrite (char_at_Some _ _ _ Ey). cbn [mbind result_bind].
  rewrite (read_Some _ _ _ Etj).
  destruct (isBase y) eqn:EbY; cbn [negb mbind result_bind].
  - rewrite (char_at_Some _ _ _ Ex). cbn [mbind result_bind].
    destruct (isBase x) eqn:EbX; cbn [negb mbind result_bind].
    + rewrite (read_Some _ _ _ Etj1). cbn [mbind result_bind].
      rewrite write_lt by lia. cbn [mbind result_bind].
      eexists. split; [done|].
      rewrite narrow_dist. apply Hcells.
      rewrite (narrow_id (Z.b2z _)) by (destruct (negb _); simpl; lia).
      rewrite Hprev.
      fold (sub_cost_iter x y).
      pose proof (sub_cost_iter_range x y) as Hs.
      pose proof (dist_iter_range (S p) (Nr - (k - 1))) as Hr.
      rewrite narrow_id by lia.
      rewrite Hdy, (dist_cons_cons _ x y) by done.
      rewrite <- Hdy. unfold INSERTION_COST. rewrite !min_ltb. lia.
    + eexists. split; [done|]. rewrite narrow_dist.
      replace tab with (<[k := dist sub_cost_iter (drop (S p) X) (drop (Nr - k) Y)]> tab)
        at 1 by (by apply list_insert_id).
      apply Hcells. by rewrite dist_skip_l.
  - rewrite (read_Some _ _ _ Etj1). cbn [mbind result_bind].
    rewrite write_lt by lia. cbn [mbind result_bind].
    eexists. split; [done|]. rewrite narrow_dist. apply Hcells.
    by rewrite Hdy, dist_skip_r.
Qed.

(** The inner loop turns the previous row of a block into the new one. *)
Lemma inner_loop_row (p Nr w len : nat) (x : ascii) (ix : Z) (iy : nat -> Z)
    (tab : list Z) (prev : Z) :
  X !! p = Some x -> ix = Z.of_nat p ->
  (w <= Nr <= length Y)%nat -> (w < len)%nat ->
  (forall k, (1 <= k <= w)%nat -> iy k = Z.of_nat (Nr - k)) ->
  length tab = len ->
  cells Y (x :: drop (S p) X) Nr 0 1 tab ->
  cells Y (drop (S p) X) Nr 1 (S w) tab ->
  prev = dist sub_cost_iter (drop (S p) X) (drop Nr Y) ->
  exists tab' prev',
    for_range 1 w (fun j st => update_cell narrow X ix Y (iy j) j st) (tab, prev)
    = Done (tab', prev') /\
    length tab' = len /\ cells Y (x :: drop (S p) X) Nr 0 (S w) tab'.
Proof.
  intros Ex Hix Hw Hlen Hiy Hl Hnew Hold Hprev.
  destruct (for_range_inv (row_inv Y x (drop (S p) X) Nr w len)
              (fun j st => update_cell narrow X ix Y (iy j) j st) w 1 (tab, prev))
    as ([tab' prev'] & E & (Hl' & Hnew' & _)).
  - repeat split; cbn [fst snd]; [done|done|done|].
    rewrite Hprev. do 3 f_equal. lia.
  - intros k st Hk Hinv.
    eapply update_cell_row; eauto; [lia|]. apply Hiy. lia.
  - exists tab', prev'. split; [done|]. split; [done|].
    by replace (1 + w)%nat with (S w) in Hnew' by lia.
Qed.

(** The initialisation loop of a block: cumulated insertion costs of the
    characters of [Y]. *)
Lemma init_tab (Nr w len : nat) (iy : nat -> Z) (tab : list Z) :
  (w <= Nr <= length Y)%nat -> (w < len)%nat -> length tab = len ->
  (forall k, (1 <= k <= w)%nat -> iy k = Z.of_nat (Nr - k)) ->
  cells Y [] Nr 0 1 tab ->
  exists tab',
    for_range 1 w (fun j tab =>
        t ← read tab (j - 1);
        ky ← at_index (iy j);
        y ← char_at Y ky;
        write tab j (t + Z.b2z (isBase y) * 2)) tab = Done tab' /\
    length tab' = len /\ cells Y [] Nr 0 (S w) tab'.
Proof.
  intros Hw Hlen Hl Hiy H0.
  destruct (for_range_inv (fun k tab => length tab = len /\ cells Y [] Nr 0 k tab)
              (fun j tab =>
                 t ← read tab (j - 1);
                 ky ← at_index (iy j);
                 y ← char_at Y ky;
                 write tab j (t + Z.b2z (isBase y) * 2)) w 1 tab)
    as (tab' & E & Hl' & Hc'); [done| |].
  - intros k tab0 Hk [Hl0 Hc0].
    destruct (lookup_lt_is_Some_2 Y (Nr - k)) as [y Ey]; [lia|].
    rewrite (read_Some _ _ _ (Hc0 (k - 1)%nat ltac:(lia))). cbn [mbind result_bind].
    rewrite Hiy by lia. rewrite at_index_nonneg by lia. cbn [mbind result_bind].
    rewrite Nat2Z.id, (char_at_Some _ _ _ Ey). cbn [mbind result_bind].
    rewrite write_lt by lia. eexists. split; [done|].
    split; [by rewrite length_insert|].
    intros q Hq. destruct (decide (q = k)) as [->|Hne].
    + rewrite list_lookup_insert_eq by lia. f_equal.
      rewrite (drop_S _ _ _ Ey), dist_nil_cons. do 4 f_equal. lia.
    + rewrite list_lookup_insert_ne by done. apply Hc0. lia.
  - exists tab'. by replace (1 + w)%nat with (S w) in Hc' by lia.
Qed.

(** The initialisation of the boundary array: cumulated insertion costs of
    the characters of [X]. *)
Lemma init_col (col : list Z) :
  length col = S (length X) -> col !! 0%nat = Some 0 ->
  exists col',
    for_range 1 (length X) (fun i col =>
        c ← read col (i - 1);
        kx ← at_index (Z.of_nat (length X) - Z.of_nat i);
        x ← char_at X kx;
        write col i (c + Z.b2z (isBase x) * 2)) col = Done col' /\
    col_inv X Y (length Y) 0 0 col'.
Proof.
  intros Hl H0.
  destruct (for_range_inv
              (fun k col => length col = S (length X) /\
                 forall r, (r < k)%nat ->
                   col !! r = Some (dist sub_cost_iter (drop (length X - r) X) []))
              (fun i col =>
                 c ← read col (i - 1);
                 kx ← at_index (Z.of_nat (length X) - Z.of_nat i);
                 x ← char_at X kx;
                 write col i (c + Z.b2z (isBase x) * 2)) (length X) 1 col)
    as (col' & E & Hl' & Hc').
  - split; [done|]. intros r Hr. replace r with 0%nat by lia.
    by rewrite Nat.sub_0_r, drop_all.
  - intros k col0 Hk [Hl0 Hc0].
    destruct (lookup_lt_is_Some_2 X (length X - k)) as [x Ex]; [lia|].
    rewrite (read_Some _ _ _ (Hc0 (k - 1)%nat ltac:(lia))). cbn [mbind result_bind].
    rewrite at_index_sub by lia. cbn [mbind result_bind].
    rewrite (char_at_Some _ _ _ Ex). cbn [mbind result_bind].
    rewrite write_lt by lia. eexists. split; [done|].
    split; [by rewrite length_insert|].
    intros r Hr. destruct (decide (r = k)) as [->|Hne].
    + rewrite list_lookup_insert_eq by lia. f_equal.
      rewrite (drop_S _ _ _ Ex), dist_cons_nil. do 4 f_equal. lia.
    + rewrite list_lookup_insert_ne by done. apply Hc0. lia.
  - exists col'. split; [done|]. split; [done|]. split; [intros r Hr; lia|].
    intros r Hr. rewrite drop_all. apply Hc'. lia.
Qed.

Lemma col_inv_done (Nr w : nat) (col : list Z) :
  col_inv X Y Nr w (S (length X)) col -> col_inv X Y (Nr - w) 0 0 col.
Proof.
  intros (Hl & Hnew & _). split; [done|]. split; [intros r Hr; lia|].
  intros r Hr. apply Hnew; lia.
Qed.

End Rows.

(** ** The iterative row engine computes the distance *)

Section IterativeEngine.
Context {BC : BaseClassifier}.

(** Lengths for which every table value fits the [int] locals. *)
Lemma to_int_id (X Y : list ascii) :
  2 * Z.of_nat (length X + length Y) + 1 < 2 ^ 31 ->
  forall z, 0 <= z <= 2 * Z.of_nat (length X + length Y) + 1 -> to_int z = z.
Proof. intros Hsz z Hz. apply to_int_small. lia. Qed.

Lemma order_length (A B : list ascii) :
  (length (order A B).1 + length (order A B).2 = length A + length B)%nat.
Proof. unfold order. destruct (length B <=? length A)%nat; simpl; lia. Qed.

Lemma EditDistance_NW_iteratif_dist (A B : list ascii) :
  2 * Z.of_nat (length A + length B) + 1 < 2 ^ 31 ->
  EditDistance_NW_iteratif A B =
  Done (dist sub_cost_iter (order A B).1 (order A B).2).
Proof.
  intros Hsz. rewrite <- order_length in Hsz.
  unfold EditDistance_NW_iteratif.
  destruct (order A B) as [X Y]. cbn [fst snd] in *.
  rewrite write_lt by (rewrite length_replicate; lia). cbn [mbind result_bind].
  destruct (init_tab Y (length Y) (length Y) (S (length Y)) (fun j => Z.of_nat (length Y) - Z.of_nat j)
              (<[0%nat := 0]> (replicate ((length Y) + 1) 0)))
    as (tab1 & E1 & Hl1 & Hc1); [lia|lia| | | |].
  { rewrite length_insert, length_replicate. lia. }
  { intros k Hk. lia. }
  { intros q Hq. replace q with 0%nat by lia.
    rewrite list_lookup_insert_eq by (rewrite length_replicate; lia).
    by rewrite Nat.sub_0_r, drop_all. }
  cbn beta in E1. rewrite E1. cbn [mbind result_bind]. clear E1.
  for_range_with (fun i tab => length tab = S (length Y) /\
                    cells Y (drop (length X - (i - 1)) X) (length Y) 0 (S (length Y)) tab)
    as (tab2 & E2 & Hl2 & Hc2).
  - split; [done|]. by rewrite Nat.sub_0_r, drop_all.
  - intros i tab Hi [Hl Hc].
    destruct (lookup_lt_is_Some_2 X ((length X) - i)) as [x Ex]; [lia|].
    replace ((length X) - (i - 1))%nat with (S ((length X) - i)) in Hc by lia.
    rewrite (read_Some _ _ _ (Hc 0%nat ltac:(lia))). cbn [mbind result_bind].
    rewrite at_index_sub by lia. cbn [mbind result_bind].
    rewrite (char_at_Some _ _ _ Ex). cbn [mbind result_bind].
    rewrite write_lt by lia. cbn [mbind result_bind].
    rewrite Nat.sub_0_r.
    rewrite (narrow_dist X Y to_int (to_int_id X Y Hsz)).
    destruct (inner_loop_row X Y to_int (to_int_id X Y Hsz) ((length X) - i) (length Y) (length Y) (S (length Y)) x
                (Z.of_nat (length X) - Z.of_nat i) (fun j => Z.of_nat (length Y) - Z.of_nat j)
                (<[0%nat := dist sub_cost_iter (drop (S ((length X) - i)) X) (drop (length Y) Y)
                            + 2 * Z.b2z (isBase x)]> tab)
                (dist sub_cost_iter (drop (S ((length X) - i)) X) (drop (length Y) Y)))
      as (tab' & prev' & E' & Hl' & Hc'); [done|lia|lia|lia| | | | |done|].
    { intros k Hk. lia. }
    { by rewrite length_insert. }
    { intros q Hq. replace q with 0%nat by lia.
      rewrite list_lookup_insert_eq by lia. f_equal.
      rewrite Nat.sub_0_r, drop_all, dist_cons_nil. lia. }
    { intros q Hq. rewrite list_lookup_insert_ne by lia. apply Hc. lia. }
    cbn beta in E'. rewrite E'. cbn [mbind result_bind].
    eexists. split; [done|]. split; [done|].
    replace ((length X) - (S i - 1))%nat with ((length X) - i)%nat by lia.
    by rewrite (drop_S _ _ _ Ex).
  - rewrite E2. cbn [mbind result_bind].
    apply read_Some.
    rewrite (Hc2 (length Y) ltac:(lia)).
    replace ((length X) - (1 + (length X) - 1))%nat with 0%nat by lia.
    by rewrite Nat.sub_diag, !drop_0.
Qed.

End IterativeEngine.

(** ** The cache-aware engine *)

Section CacheAwareEngine.
Context {BC : BaseClassifier}.
Variables X Y : list ascii.
Hypothesis size_ok : 2 * Z.of_nat (length X + length Y) + 1 < 2 ^ 31.

(** One block moves the boundary array [w] columns further. *)
Lemma cache_aware_block_correct (Nr : nat) (nb_case : Z) (tab col : list Z) :
  0 <= nb_case -> (Nr <= length Y)%nat ->
  length tab = Z.to_nat (nb_case + 1) ->
  col_inv X Y Nr 0 0 col ->
  exists tab' col',
    cache_aware_block X Y (length X) nb_case (Z.of_nat Nr, tab, col)
    = Done (Z.of_nat Nr - nb_case, tab', col') /\
    length tab' = length tab /\
    col_inv X Y (Nr - Z.to_nat (Z.min (Z.of_nat Nr) nb_case)) 0 0 col'.
Proof.
  intros Hnb HNr Hl (Hlc & _ & Hcol).
  unfold cache_aware_block. rewrite min_ltb.
  set (w := Z.to_nat (Z.min (Z.of_nat Nr) nb_case)).
  assert (Hw : Z.min (Z.of_nat Nr) nb_case = Z.of_nat w) by lia.
  rewrite Hw.
  rewrite (read_Some _ _ _ (Hcol 0%nat ltac:(lia))). cbn [mbind result_bind].
  rewrite Nat.sub_0_r, drop_all.
  rewrite write_lt by lia. cbn [mbind result_bind].
  destruct (init_tab Y Nr w (length tab) (fun j => Z.of_nat Nr - Z.of_nat j)
              (<[0%nat := dist sub_cost_iter [] (drop Nr Y)]> tab))
    as (tab1 & E1 & Hl1 & Hc1); [lia|lia| | | |].
  { by rewrite length_insert. }
  { intros k Hk. lia. }
  { intros q Hq. replace q with 0%nat by lia.
    rewrite list_lookup_insert_eq by lia. by rewrite Nat.sub_0_r. }
  cbn beta in E1. rewrite ?Nat2Z.id. rewrite E1. cbn [mbind result_bind]. clear E1.
  rewrite at_index_nonneg by lia. cbn [mbind result_bind]. rewrite ?Nat2Z.id.
  rewrite (read_Some _ _ _ (Hc1 w ltac:(lia))). cbn [mbind result_bind].
  rewrite write_lt by lia. cbn [mbind result_bind].
  for_range_with (block_inv X Y Nr w (length tab)) as ([tab2 col2] & E2 & Hinv2).
  - (* the invariant holds before the first row *)
    split; [done|]. cbn [fst snd]. split.
    + replace (length X - (1 - 1))%nat with (length X) by lia. by rewrite drop_all.
    + split; [by rewrite length_insert|]. split.
      * intros r Hr _. replace r with 0%nat by lia.
        rewrite list_lookup_insert_eq by lia. by rewrite Nat.sub_0_r, drop_all.
      * intros r Hr. rewrite list_lookup_insert_ne by lia. apply Hcol. lia.
  - (* one row *)
    intros i [tabi coli] Hi (Hli & Hci & Hlci & Hnewi & Holdi). cbn [fst snd] in *.
    destruct (lookup_lt_is_Some_2 X (length X - i)) as [x Ex]; [lia|].
    replace (length X - (i - 1))%nat with (S (length X - i)) in Hci by lia.
    rewrite (read_Some _ _ _ (Hci 0%nat ltac:(lia))). cbn [mbind result_bind].
    rewrite (read_Some _ _ _ (Holdi i ltac:(lia))). cbn [mbind result_bind].
    rewrite write_lt by lia. cbn [mbind result_bind].
    rewrite Nat.sub_0_r.
    rewrite (narrow_dist X Y to_int (to_int_id X Y size_ok)).
    destruct (inner_loop_row X Y to_int (to_int_id X Y size_ok) (length X - i) Nr w
                (length tab) x
                (Z.of_nat (length X) - Z.of_nat i) (fun j => Z.of_nat Nr - Z.of_nat j)
                (<[0%nat := dist sub_cost_iter (drop (length X - i) X) (drop Nr Y)]> tabi)
                (dist sub_cost_iter (drop (S (length X - i)) X) (drop Nr Y)))
      as (tab' & prev' & E' & Hl' & Hc'); [done|lia|lia|lia| | | | |done|].
    { intros k Hk. lia. }
    { by rewrite length_insert. }
    { intros q Hq. replace q with 0%nat by lia.
      rewrite list_lookup_insert_eq by lia.
      by rewrite Nat.sub_0_r, (drop_S _ _ _ Ex). }
    { intros q Hq. rewrite list_lookup_insert_ne by lia. apply Hci. lia. }
    cbn beta in E'. rewrite E'. cbn [mbind result_bind].
    rewrite (read_Some _ _ _ (Hc' w ltac:(lia))). cbn [mbind result_bind].
    rewrite write_lt by lia. cbn [mbind result_bind].
    eexists. split; [done|]. split; [done|]. cbn [fst snd]. split.
    + replace (length X - (S i - 1))%nat with (length X - i)%nat by lia.
      by rewrite (drop_S _ _ _ Ex).
    + split; [by rewrite length_insert|]. split.
      * intros r Hr HrM. destruct (decide (r = i)) as [->|Hne].
        -- rewrite list_lookup_insert_eq by lia. by rewrite (drop_S _ _ _ Ex).
        -- rewrite list_lookup_insert_ne by done. apply Hnewi; lia.
      * intros r Hr. rewrite list_lookup_insert_ne by lia. apply Holdi. lia.
  - rewrite E2. cbn [mbind result_bind].
    destruct Hinv2 as (Hl2 & _ & Hc2). cbn [fst snd] in *.
    exists tab2, col2. split; [done|]. split; [done|].
    apply col_inv_done. by replace (S (length X)) with (1 + length X)%nat by lia.
Qed.

(** The block loop: it finishes exactly when the budget allows, and then the
    boundary array is at column [N]. *)
Lemma cache_aware_loop_correct (nb_case : Z) (fuel : nat) :
  0 <= nb_case ->
  forall (Nr : Z) (tab col : list Z),
    Nr <= Z.of_nat (length Y) ->
    length tab = Z.to_nat (nb_case + 1) ->
    col_inv X Y (Z.to_nat Nr) 0 0 col ->
    if blocks_done fuel Nr nb_case then
      exists col', cache_aware_loop fuel X Y (length X) nb_case (Nr, tab, col) = Done col'
                   /\ col_inv X Y 0 0 0 col'
    else cache_aware_loop fuel X Y (length X) nb_case (Nr, tab, col) = OutOfFuel.
Proof.
  intros Hnb. induction fuel as [|fuel IH]; intros Nr tab col HNr Hl Hcol.
  - cbn [blocks_done cache_aware_loop fst snd].
    destruct (Z.ltb_spec 0 Nr); [done|].
    exists col. split; [done|]. by replace (Z.to_nat Nr) with 0%nat in Hcol by lia.
  - cbn [blocks_done cache_aware_loop fst snd].
    destruct (Z.ltb_spec 0 Nr) as [Hpos|Hneg].
    + destruct (cache_aware_block_correct (Z.to_nat Nr) nb_case tab col)
        as (tab' & col' & E & Hl' & Hcol'); [done|lia|done|done|].
      rewrite Z2Nat.id in E by lia. rewrite E. cbn [mbind result_bind].
      apply IH; [lia|lia|].
      replace (Z.to_nat (Nr - nb_case))
        with (Z.to_nat Nr - Z.to_nat (Z.min (Z.of_nat (Z.to_nat Nr)) nb_case))%nat
        by lia.
      done.
    + exists col. split; [done|]. by replace (Z.to_nat Nr) with 0%nat in Hcol by lia.
Qed.

End CacheAwareEngine.

Section CacheAwareEntry.
Context {BC : BaseClassifier}.

Lemma init_col_replicate (X Y : list ascii) :
  exists col',
    for_range 1 (length X) (fun i col =>
        c ← read col (i - 1);
        kx ← at_index (Z.of_nat (length X) - Z.of_nat i);
        x ← char_at X kx;
        write col i (c + Z.b2z (isBase x) * 2))
      (<[0%nat := 0]> (replicate (length X + 1) 0)) = Done col' /\
    col_inv X Y (length Y) 0 0 col'.
Proof.
  apply init_col.
  - rewrite length_insert, length_replicate. lia.
  - apply list_lookup_insert_eq. rewrite length_replicate. lia.
Qed.

(** Outcome of the cache-aware engine for every budget and every fuel. *)
Lemma EditDistance_NW_cache_aware_outcome (fuel : nat) (A B : list ascii) (Zb : Z) :
  2 * Z.of_nat (length A + length B) + 1 < 2 ^ 31 ->
  EditDistance_NW_cache_aware fuel A B Zb =
  if nb_case_of Zb <? 0 then OutOfBounds
  else if blocks_done fuel (Z.of_nat (length (order A B).2)) (nb_case_of Zb)
       then Done (dist sub_cost_iter (order A B).1 (order A B).2)
       else OutOfFuel.
Proof.
  intros Hsz. rewrite <- order_length in Hsz.
  unfold EditDistance_NW_cache_aware.
  destruct (order A B) as [X Y]. cbn [fst snd] in *.
  destruct (Z.ltb_spec (nb_case_of Zb) 0) as [Hneg|Hnb].
  - rewrite (write_ge (replicate (Z.to_nat (nb_case_of Zb + 1)) 0));
      [reflexivity|]. rewrite length_replicate. lia.
  - rewrite write_lt by (rewrite length_replicate; lia). cbn [mbind result_bind].
    rewrite write_lt by (rewrite length_replicate; lia). cbn [mbind result_bind].
    destruct (init_col_replicate X Y) as (col1 & E1 & Hcol1).
    rewrite E1. cbn [mbind result_bind]. clear E1.
    pose proof (cache_aware_loop_correct X Y Hsz (nb_case_of Zb) fuel Hnb
                  (Z.of_nat (length Y))
                  (<[0%nat := 0]> (replicate (Z.to_nat (nb_case_of Zb + 1)) 0)) col1)
      as Hloop.
    rewrite Nat2Z.id in Hloop.
    destruct (blocks_done fuel (Z.of_nat (length Y)) (nb_case_of Zb)).
    + destruct Hloop as (col' & E & Hl' & _ & Hc'); [lia| |done|].
      { rewrite length_insert, length_replicate. done. }
      rewrite E. cbn [mbind result_bind]. apply read_Some.
      rewrite (Hc' (length X) ltac:(lia)). by rewrite Nat.sub_diag, !drop_0.
    + rewrite Hloop; [done|lia| |done].
      rewrite length_insert, length_replicate. done.
Qed.

Lemma blocks_done_enough (fuel : nat) (N nb_case : Z) :
  1 <= nb_case -> N <= Z.of_nat fuel -> blocks_done fuel N nb_case = true.
Proof.
  intros Hnb. revert N. induction fuel as [|fuel IH]; intros N HN;
    cbn [blocks_done]; destruct (Z.ltb_spec 0 N); try done; try lia.
  apply IH. lia.
Qed.

Lemma blocks_done_never (fuel : nat) (N : Z) :
  0 < N -> blocks_done fuel N 0 = false.
Proof.
  intros HN. induction fuel as [|fuel IH];
    cbn [blocks_done]; destruct (Z.ltb_spec 0 N); try done; try lia.
  by rewrite Z.sub_0_r.
Qed.

Lemma nb_case_of_nonneg (Zb : Z) :
  0 <= Zb < 2 ^ 31 -> nb_case_of Zb = Zb / 40.
Proof.
  intros HZ. unfold nb_case_of, to_ulong.
  rewrite !Z.mod_small by lia. apply to_int_small.
  change (5 * 8) with 40.
  assert (0 <= Zb / 40) by (apply Z.div_pos; lia).
  assert (Zb / 40 <= Zb) by (apply Z.div_le_upper_bound; lia).
  lia.
Qed.

End CacheAwareEntry.

(** ** The cache-oblivious engine *)

Section CacheObliviousEngine.
Context {BC : BaseClassifier}.
Variables X Y : list ascii.

(** The base case on the first sub-range [[0, w)] moves the boundary array
    [w] columns further. *)
Lemma cache_oblivious_base_first (w : nat) (col : list Z) :
  (w <= length Y)%nat ->
  col_inv X Y (length Y) 0 0 col ->
  exists col',
    cache_oblivious_base X (length X) Y (length Y) col 0 (Z.of_nat w) = Done col' /\
    col_inv X Y (length Y - w) 0 0 col'.
Proof.
  intros Hw (Hlc & _ & Hcol).
  assert (Hid : forall z, 0 <= z <= 2 * Z.of_nat (length X + length Y) + 1 ->
                          (fun z => z) z = z) by done.
  unfold cache_oblivious_base. rewrite Z.sub_0_r.
  replace (Z.to_nat (Z.of_nat w + 1)) with (S w) by lia. rewrite Nat2Z.id.
  rewrite (read_Some _ _ _ (Hcol 0%nat ltac:(lia))). cbn [mbind result_bind].
  rewrite Nat.sub_0_r, drop_all.
  rewrite write_lt by (rewrite length_replicate; lia). cbn [mbind result_bind].
  destruct (init_tab Y (length Y) w (S w)
              (fun j => Z.of_nat (length Y) - Z.of_nat j - 0)
              (<[0%nat := dist sub_cost_iter [] (drop (length Y) Y)]> (replicate (S w) 0)))
    as (tab1 & E1 & Hl1 & Hc1); [lia|lia| | | |].
  { by rewrite length_insert, length_replicate. }
  { intros k Hk. lia. }
  { intros q Hq. replace q with 0%nat by lia.
    rewrite list_lookup_insert_eq by (rewrite length_replicate; lia).
    by rewrite Nat.sub_0_r. }
  cbn beta in E1. rewrite E1. cbn [mbind result_bind]. clear E1.
  rewrite at_index_nonneg by lia. cbn [mbind result_bind]. rewrite Nat2Z.id.
  rewrite (read_Some _ _ _ (Hc1 w ltac:(lia))). cbn [mbind result_bind].
  rewrite write_lt by lia. cbn [mbind result_bind].
  for_range_with (block_inv X Y (length Y) w (S w)) as ([tab2 col2] & E2 & Hinv2).
  - split; [done|]. cbn [fst snd]. split.
    + replace (length X - (1 - 1))%nat with (length X) by lia. by rewrite drop_all.
    + split; [by rewrite length_insert|]. split.
      * intros r Hr _. replace r with 0%nat by lia.
        rewrite list_lookup_insert_eq by lia. by rewrite Nat.sub_0_r, drop_all.
      * intros r Hr. rewrite list_lookup_insert_ne by lia. apply Hcol. lia.
  - intros i [tabi coli] Hi (Hli & Hci & Hlci & Hnewi & Holdi). cbn [fst snd] in *.
    destruct (lookup_lt_is_Some_2 X (length X - i)) as [x Ex]; [lia|].
    replace (length X - (i - 1))%nat with (S (length X - i)) in Hci by lia.
    rewrite (read_Some _ _ _ (Hci 0%nat ltac:(lia))). cbn [mbind result_bind].
    rewrite (read_Some _ _ _ (Holdi i ltac:(lia))). cbn [mbind result_bind].
    rewrite write_lt by lia. cbn [mbind result_bind].
    rewrite Nat.sub_0_r.
    destruct (inner_loop_row X Y (fun z => z) Hid (length X - i) (length Y) w (S w) x
                (Z.of_nat (length X) - Z.of_nat i)
                (fun j => Z.of_nat (length Y) - Z.of_nat j - 0)
                (<[0%nat := dist sub_cost_iter (drop (length X - i) X)
                              (drop (length Y) Y)]> tabi)
                (dist sub_cost_iter (drop (S (length X - i)) X) (drop (length Y) Y)))
      as (tab' & prev' & E' & Hl' & Hc'); [done|lia|lia|lia| | | | |done|].
    { intros k Hk. lia. }
    { by rewrite length_insert. }
    { intros q Hq. replace q with 0%nat by lia.
      rewrite list_lookup_insert_eq by lia.
      by rewrite Nat.sub_0_r, (drop_S _ _ _ Ex). }
    { intros q Hq. rewrite list_lookup_insert_ne by lia. apply Hci. lia. }
    cbn beta in E'. rewrite E'. cbn [mbind result_bind].
    rewrite (read_Some _ _ _ (Hc' w ltac:(lia))). cbn [mbind result_bind].
    rewrite write_lt by lia. cbn [mbind result_bind].
    eexists. split; [done|]. split; [done|]. cbn [fst snd]. split.
    + replace (length X - (S i - 1))%nat with (length X - i)%nat by lia.
      by rewrite (drop_S _ _ _ Ex).
    + split; [by rewrite length_insert|]. split.
      * intros r Hr HrM. destruct (decide (r = i)) as [->|Hne].
        -- rewrite list_lookup_insert_eq by lia. by rewrite (drop_S _ _ _ Ex).
        -- rewrite list_lookup_insert_ne by done. apply Hnewi; lia.
      * intros r Hr. rewrite list_lookup_insert_ne by lia. apply Holdi. lia.
  - rewrite E2. cbn [mbind result_bind].
    destruct Hinv2 as (Hl2 & _ & Hc2). cbn [fst snd] in *.
    exists col2. split; [done|].
    apply col_inv_done. exact Hc2.
Qed.

(** The initialisation loop of the base case succeeds whenever the
    sub-range lies within [Y]. *)
Lemma cache_oblivious_init_length (d w : nat) (tab : list Z) :
  (d + w <= length Y)%nat -> length tab = S w ->
  exists tab',
    for_range 1 w (fun j tab =>
        t ← read tab (j - 1);
        ky ← at_index (Z.of_nat (length Y) - Z.of_nat j - Z.of_nat d);
        y ← char_at Y ky;
        write tab j (t + Z.b2z (isBase y) * 2)) tab = Done tab' /\
    length tab' = S w.
Proof.
  intros Hdw Hl.
  for_range_with (fun (k : nat) (tab : list Z) => length tab = S w) as (tab' & E & Hl').
  - done.
  - intros k tab0 Hk Hl0.
    destruct (lookup_lt_is_Some_2 tab0 (k - 1)) as [t Et]; [lia|].
    rewrite (read_Some _ _ _ Et). cbn [mbind result_bind].
    rewrite at_index_nonneg by lia. cbn [mbind result_bind].
    destruct (char_at_le Y (Z.to_nat (Z.of_nat (length Y) - Z.of_nat k - Z.of_nat d)))
      as [y Ey]; [lia|].
    rewrite Ey. cbn [mbind result_bind].
    rewrite write_lt by lia. eexists. split; [done|]. by rewrite length_insert.
  - by exists tab'.
Qed.

(** The base case on a sub-range that does not start at 0 reads [tab]
    outside its [taille + 1] elements. *)
Lemma cache_oblivious_base_out_of_bounds (d f : nat) (col : list Z) :
  (0 < d <= f)%nat -> (f <= length Y)%nat -> (0 < length col)%nat ->
  cache_oblivious_base X (length X) Y (length Y) col (Z.of_nat d) (Z.of_nat f)
  = OutOfBounds.
Proof.
  intros Hd Hf Hlc. unfold cache_oblivious_base.
  destruct (lookup_lt_is_Some_2 col 0) as [c0 Ec0]; [lia|].
  rewrite (read_Some _ _ _ Ec0). cbn [mbind result_bind].
  replace (Z.to_nat (Z.of_nat f - Z.of_nat d + 1)) with (S (f - d)) by lia.
  replace (Z.to_nat (Z.of_nat f - Z.of_nat d)) with (f - d)%nat by lia.
  rewrite write_lt by (rewrite length_replicate; lia). cbn [mbind result_bind].
  destruct (cache_oblivious_init_length d (f - d) (<[0%nat := c0]> (replicate (S (f - d)) 0)))
    as (tab1 & E1 & Hl1); [lia| |].
  { by rewrite length_insert, length_replicate. }
  rewrite E1. cbn [mbind result_bind].
  rewrite (at_index_nonneg (Z.of_nat f)) by lia. cbn [mbind result_bind].
  rewrite read_ge by lia. done.
Qed.

(** A base case that returns started at 0. *)
Lemma cache_oblivious_base_Done (d f : Z) (N : nat) (col col' : list Z) :
  0 <= d <= f ->
  cache_oblivious_base X (length X) Y N col d f = Done col' -> d = 0.
Proof.
  intros Hd. unfold cache_oblivious_base.
  intros (c0 & _ & E)%bind_Done_inv.
  apply bind_Done_inv in E as (tab0 & [_ ->]%write_Done & E).
  apply bind_Done_inv in E as (tab1 & E1 & E).
  apply bind_Done_inv in E as (kf & Ekf & E).
  apply bind_Done_inv in E as (tf & Etf%read_Done%lookup_lt_Some & _).
  rewrite at_index_nonneg in Ekf by lia. injection Ekf as <-.
  assert (Hl1 : length tab1 = Z.to_nat (f - d + 1)).
  { apply (for_range_Done (fun (_ : nat) (tab : list Z) =>
             length tab = Z.to_nat (f - d + 1))) in E1; [done| |].
    - by rewrite length_insert, length_replicate.
    - intros k s0 s1 _ Hl0 Eb.
      apply bind_Done_inv in Eb as (t & _ & Eb).
      apply bind_Done_inv in Eb as (ky & _ & Eb).
      apply bind_Done_inv in Eb as (y & _ & Eb).
      apply write_Done in Eb as [_ ->]. by rewrite length_insert. }
  lia.
Qed.

(** With a threshold of at least 1, a call on a sub-range that does not
    start at 0 ends in the out-of-bounds read. *)
Lemma cache_oblivious_helper_right (seuil : Z) (fuel : nat) :
  1 <= seuil ->
  forall (d f : nat) (col : list Z),
    (0 < d <= f)%nat -> (f <= length Y)%nat -> (0 < length col)%nat ->
    (f - d < fuel)%nat ->
    cache_oblivious_helper fuel X (length X) Y (length Y) col seuil
      (Z.of_nat d) (Z.of_nat f) = OutOfBounds.
Proof.
  intros Hs. induction fuel as [|fuel IH]; intros d f col Hd Hf Hlc Hfuel; [lia|].
  cbn [cache_oblivious_helper].
  destruct (Z.ltb_spec seuil (Z.of_nat f - Z.of_nat d)) as [Hsplit|Hbase].
  - assert (Hq : Z.quot (Z.of_nat f - Z.of_nat d) 2 + Z.of_nat d
                 = Z.of_nat ((f - d) / 2 + d)).
    { rewrite Z.quot_div_nonneg by lia. rewrite Nat2Z.inj_add, Nat2Z.inj_div.
      rewrite Nat2Z.inj_sub by lia. done. }
    rewrite Hq.
    assert ((f - d) / 2 < f - d)%nat by (apply Nat.div_lt; lia).
    assert (1 <= (f - d) / 2)%nat by (apply Nat.div_le_lower_bound; lia).
    rewrite IH by lia. done.
  - by apply cache_oblivious_base_out_of_bounds.
Qed.

(** A call on a sub-range [[0, f)]: evaluated directly when it is within
    the threshold, otherwise it ends in the out-of-bounds read. *)
Lemma cache_oblivious_helper_left (seuil : Z) (fuel : nat) :
  1 <= seuil ->
  forall (f : nat) (col : list Z),
    (f <= length Y)%nat -> (f < fuel)%nat ->
    col_inv X Y (length Y) 0 0 col ->
    if Z.of_nat f <=? seuil then
      exists col',
        cache_oblivious_helper fuel X (length X) Y (length Y) col seuil 0 (Z.of_nat f)
        = Done col' /\ col_inv X Y (length Y - f) 0 0 col'
    else
      cache_oblivious_helper fuel X (length X) Y (length Y) col seuil 0 (Z.of_nat f)
      = OutOfBounds.
Proof.
  intros Hs. induction fuel as [|fuel IH]; intros f col Hf Hfuel Hcol; [lia|].
  cbn [cache_oblivious_helper]. rewrite Z.sub_0_r.
  destruct (Z.leb_spec (Z.of_nat f) seuil) as [Hbase|Hsplit].
  - destruct (Z.ltb_spec seuil (Z.of_nat f)); [lia|].
    by apply cache_oblivious_base_first.
  - destruct (Z.ltb_spec seuil (Z.of_nat f)); [|lia].
    assert (Hq : Z.quot (Z.of_nat f) 2 + 0 = Z.of_nat (f / 2)).
    { rewrite Z.quot_div_nonneg by lia. rewrite Nat2Z.inj_div. lia. }
    rewrite Hq.
    assert (f / 2 < f)%nat by (apply Nat.div_lt; lia).
    assert (1 <= f / 2)%nat by (apply Nat.div_le_lower_bound; lia).
    specialize (IH (f / 2)%nat col ltac:(lia) ltac:(lia) Hcol).
    destruct (Z.of_nat (f / 2) <=? seuil).
    + destruct IH as (col1 & E1 & Hl1 & _). rewrite E1. cbn [mbind result_bind].
      apply cache_oblivious_helper_right; [done|lia|lia|lia|lia].
    + rewrite IH. done.
Qed.

(** A helper call that returns was a single base case started at 0. *)
Lemma cache_oblivious_helper_Done (seuil : Z) (N : nat) (fuel : nat) :
  forall (d f : Z) (col col' : list Z),
    0 <= d <= f ->
    cache_oblivious_helper fuel X (length X) Y N col seuil d f = Done col' ->
    d = 0 /\ f <= seuil.
Proof.
  induction fuel as [|fuel IH]; intros d f col col' Hd; [done|].
  cbn [cache_oblivious_helper].
  destruct (Z.ltb_spec seuil (f - d)) as [Hsplit|Hbase].
  - intros (col1 & E1 & E2)%bind_Done_inv.
    assert (0 <= Z.quot (f - d) 2 <= f - d).
    { rewrite Z.quot_div_nonneg by lia. split; [apply Z.div_pos; lia|].
      apply Z.div_le_upper_bound; lia. }
    apply IH in E2; [|lia]. lia.
  - intros E%cache_oblivious_base_Done; [|done]. lia.
Qed.

(** With the threshold 0 a non-empty sub-range [[0, f)] is split for ever:
    [[0, 1)] splits into [[0, 0)] and [[0, 1)] itself. *)
Lemma cache_oblivious_helper_threshold_0 (f : nat) :
  forall (fuel : nat) (col : list Z),
    (1 <= f <= length Y)%nat -> col_inv X Y (length Y) 0 0 col ->
    cache_oblivious_helper fuel X (length X) Y (length Y) col 0 0 (Z.of_nat f)
    = OutOfFuel.
Proof.
  induction f as [f IHf] using lt_wf_ind.
  induction fuel as [|fuel IHfuel]; intros col Hf Hcol; [done|].
  cbn [cache_oblivious_helper]. rewrite Z.sub_0_r.
  destruct (Z.ltb_spec 0 (Z.of_nat f)); [|lia].
  assert (Hq : Z.quot (Z.of_nat f) 2 + 0 = Z.of_nat (f / 2)).
  { rewrite Z.quot_div_nonneg by lia. rewrite Nat2Z.inj_div. lia. }
  rewrite Hq.
  destruct (decide (f = 1%nat)) as [->|Hf1].
  - change (1 / 2)%nat with 0%nat.
    destruct fuel as [|fuel]; [done|].
    assert (Hleft :
      cache_oblivious_helper (S fuel) X (length X) Y (length Y) col 0 0 (Z.of_nat 0)
      = cache_oblivious_base X (length X) Y (length Y) col 0 (Z.of_nat 0))
      by reflexivity.
    rewrite Hleft.
    destruct (cache_oblivious_base_first 0 col) as (col' & E & Hcol'); [lia|done|].
    rewrite E. cbn [mbind result_bind].
    rewrite Nat.sub_0_r in Hcol'. by apply IHfuel.
  - assert (f / 2 < f)%nat by (apply Nat.div_lt; lia).
    assert (1 <= f / 2)%nat by (apply Nat.div_le_lower_bound; lia).
    rewrite (IHf (f / 2)%nat) by (done || lia). done.
Qed.

End CacheObliviousEngine.

Section CacheObliviousEntry.
Context {BC : BaseClassifier}.

(** Within the threshold the engine evaluates all of [Y] directly. *)
Lemma EditDistance_NW_cache_oblivious_direct (fuel : nat) (A B : list ascii) (seuil : Z) :
  (0 < fuel)%nat -> Z.of_nat (length (order A B).2) <= seuil ->
  EditDistance_NW_cache_oblivious fuel A B seuil =
  Done (dist sub_cost_iter (order A B).1 (order A B).2).
Proof.
  unfold EditDistance_NW_cache_oblivious.
  destruct (order A B) as [X Y]. cbn [fst snd]. intros Hfuel Hs.
  rewrite write_lt by (rewrite length_replicate; lia). cbn [mbind result_bind].
  destruct (init_col_replicate X Y) as (col1 & E1 & Hcol1).
  rewrite E1. cbn [mbind result_bind]. clear E1.
  destruct fuel as [|fuel]; [lia|]. cbn [cache_oblivious_helper].
  rewrite Z.sub_0_r. destruct (Z.ltb_spec seuil (Z.of_nat (length Y))); [lia|].
  destruct (cache_oblivious_base_first X Y (length Y) col1) as (col' & E & Hl' & _ & Hc');
    [lia|done|].
  rewrite E. cbn [mbind result_bind]. apply read_Some.
  rewrite (Hc' (length X) ltac:(lia)).
  by rewrite !Nat.sub_diag, !drop_0.
Qed.

(** Beyond the threshold the column range is split, and the second
    sub-range reads [tab] out of bounds. *)
Lemma EditDistance_NW_cache_oblivious_split (fuel : nat) (A B : list ascii) (seuil : Z) :
  1 <= seuil -> seuil < Z.of_nat (length (order A B).2) ->
  (length (order A B).2 < fuel)%nat ->
  EditDistance_NW_cache_oblivious fuel A B seuil = OutOfBounds.
Proof.
  unfold EditDistance_NW_cache_oblivious.
  destruct (order A B) as [X Y]. cbn [fst snd]. intros Hs Hsplit Hfuel.
  rewrite write_lt by (rewrite length_replicate; lia). cbn [mbind result_bind].
  destruct (init_col_replicate X Y) as (col1 & E1 & Hcol1).
  rewrite E1. cbn [mbind result_bind]. clear E1.
  pose proof (cache_oblivious_helper_left X Y seuil fuel Hs (length Y) col1
                ltac:(lia) Hfuel Hcol1) as Hleft.
  destruct (Z.leb_spec (Z.of_nat (length Y)) seuil); [lia|].
  rewrite Hleft. done.
Qed.

(** The engine returns a value only when it evaluates all of [Y] directly. *)
Lemma EditDistance_NW_cache_oblivious_Done (fuel : nat) (A B : list ascii)
    (seuil : Z) (v : Z) :
  EditDistance_NW_cache_oblivious fuel A B seuil = Done v ->
  (0 < fuel)%nat /\ Z.of_nat (length (order A B).2) <= seuil.
Proof.
  unfold EditDistance_NW_cache_oblivious.
  destruct (order A B) as [X Y]. cbn [fst snd].
  intros (col0 & _ & E)%bind_Done_inv.
  apply bind_Done_inv in E as (col1 & _ & E).
  apply bind_Done_inv in E as (col2 & E & _).
  split; [destruct fuel; [done|lia]|].
  apply cache_oblivious_helper_Done in E; lia.
Qed.

(** With the threshold 0 the engine does not return when the shorter
    sequence is not empty. *)
Lemma EditDistance_NW_cache_oblivious_threshold_0 (fuel : nat) (A B : list ascii) :
  (0 < length (order A B).2)%nat ->
  EditDistance_NW_cache_oblivious fuel A B 0 = OutOfFuel.
Proof.
  unfold EditDistance_NW_cache_oblivious.
  destruct (order A B) as [X Y]. cbn [fst snd]. intros HN.
  rewrite write_lt by (rewrite length_replicate; lia). cbn [mbind result_bind].
  destruct (init_col_replicate X Y) as (col1 & E1 & Hcol1).
  rewrite E1. cbn [mbind result_bind]. clear E1.
  rewrite cache_oblivious_helper_threshold_0 by (done || lia). done.
Qed.

End CacheObliviousEntry.

(** ** The recurrence of section 4.1 *)

Section SpecRecurrence.
Context {BC : BaseClassifier}.

Lemma Forall_Forall_elem {A B : Type} (P : A -> B -> Prop) (xs : list A) (ys : list B) :
  Forall (fun x => Forall (fun y => P x y) ys) xs ->
  forall x y, x ∈ xs -> y ∈ ys -> P x y.
Proof.
  intros HF x y Hx Hy.
  rewrite Forall_forall in HF. specialize (HF x Hx).
  rewrite Forall_forall in HF. by apply HF.
Qed.

(** The recurrence on suffixes satisfies the equations of section 4.1. *)
Lemma phi_spec_recurrence (X Y : list ascii) : recurrence_4_1 X Y (phi_spec X Y).
Proof.
  unfold phi_spec. repeat split.
  - by rewrite !drop_all.
  - intros j y Ey. by rewrite drop_all, (drop_S _ _ _ Ey), phi_nil_cons.
  - intros i x Ex. by rewrite drop_all, (drop_S _ _ _ Ex), phi_cons_nil.
  - intros i j x y Ex Ey Hx.
    rewrite (drop_S _ _ _ Ex), (drop_S _ _ _ Ey), phi_cons_cons. by rewrite Hx.
  - intros i j x y Ex Ey Hy.
    rewrite !phi_dist, (drop_S _ _ _ Ey). by rewrite dist_skip_r.
  - intros i j x y Ex Ey Hx Hy.
    rewrite (drop_S _ _ _ Ex), (drop_S _ _ _ Ey), phi_cons_cons. by rewrite Hx, Hy.
Qed.

(** The equations of section 4.1 determine the function on the table. *)
Lemma recurrence_4_1_unique (X Y : list ascii) (f : nat -> nat -> Z) :
  recurrence_4_1 X Y f ->
  forall n i j, (i <= length X)%nat -> (j <= length Y)%nat ->
    ((length X - i) + (length Y - j) = n)%nat ->
    f i j = dist sub_cost_spec (drop i X) (drop j Y).
Proof.
  intros (H00 & HM & HN & HskipX & HskipY & Hmin).
  induction n as [n IH] using lt_wf_ind. intros i j Hi Hj Hn.
  destruct (decide (i = length X)) as [->|HiM];
    destruct (decide (j = length Y)) as [->|HjN].
  - by rewrite !drop_all.
  - destruct (lookup_lt_is_Some_2 Y j) as [y Ey]; [lia|].
    rewrite (HM j y Ey), (IH (n - 1)%nat) by lia.
    rewrite drop_all, (drop_S _ _ _ Ey), dist_nil_cons. unfold ins_cost, INSERTION_COST.
    destruct (isBase y); simpl; lia.
  - destruct (lookup_lt_is_Some_2 X i) as [x Ex]; [lia|].
    rewrite (HN i x Ex), (IH (n - 1)%nat) by lia.
    rewrite drop_all, (drop_S _ _ _ Ex), dist_cons_nil. unfold ins_cost, INSERTION_COST.
    destruct (isBase x); simpl; lia.
  - destruct (lookup_lt_is_Some_2 X i) as [x Ex]; [lia|].
    destruct (lookup_lt_is_Some_2 Y j) as [y Ey]; [lia|].
    destruct (isBase x) eqn:Hx; [destruct (isBase y) eqn:Hy|].
    + rewrite (Hmin i j x y Ex Ey Hx Hy).
      rewrite (IH (n - 2)%nat ltac:(lia) (S i) (S j)) by lia.
      rewrite (IH (n - 1)%nat ltac:(lia) (S i) j) by lia.
      rewrite (IH (n - 1)%nat ltac:(lia) i (S j)) by lia.
      rewrite (drop_S _ _ _ Ex), (drop_S _ _ _ Ey).
      by rewrite (dist_cons_cons _ x y).
    + rewrite (HskipY i j x y Ex Ey Hy), (IH (n - 1)%nat) by lia.
      by rewrite (drop_S Y _ _ Ey), dist_skip_r.
    + rewrite (HskipX i j x y Ex Ey Hx), (IH (n - 1)%nat) by lia.
      by rewrite (drop_S X _ _ Ex), dist_skip_l.
Qed.

Lemma sub_cost_spec_memo (xs ys : list ascii) (x y : ascii) :
  known_same_is_known xs ys -> x ∈ xs -> y ∈ ys ->
  sub_cost_spec x y = sub_cost_memo x y.
Proof.
  intros HF Hx Hy.
  pose proof (Forall_Forall_elem _ _ _ HF x y Hx Hy) as Hk.
  cbn beta in Hk. revert Hk.
  unfold sub_cost_spec, sub_cost_memo,
    SUBSTITUTION_COST, SUBSTITUTION_UNKNOWN_COST.
  destruct (isSameBase x y), (isUnknownBase x), (isUnknownBase y);
    simpl; intros Hk; try done.
  by specialize (Hk eq_refl eq_refl).
Qed.

Lemma sub_cost_memo_iter (xs ys : list ascii) (x y : ascii) :
  unknown_never_same xs ys -> x ∈ xs -> y ∈ ys ->
  sub_cost_memo x y = sub_cost_iter x y.
Proof.
  intros HF Hx Hy.
  pose proof (Forall_Forall_elem _ _ _ HF x y Hx Hy) as Hk.
  cbn beta in Hk.
  unfold sub_cost_iter, sub_cost_memo,
    SUBSTITUTION_COST, SUBSTITUTION_UNKNOWN_COST.
  destruct (isUnknownBase x); [rewrite Hk by done; done|].
  by destruct (isSameBase x y).
Qed.

Lemma sub_cost_iter_sym (xs ys : list ascii) (x y : ascii) :
  same_base_symmetric xs ys -> x ∈ xs -> y ∈ ys ->
  sub_cost_iter x y = sub_cost_iter y x.
Proof.
  intros HF Hx Hy. unfold sub_cost_iter.
  pose proof (Forall_Forall_elem _ _ _ HF x y Hx Hy) as Hs.
  cbn beta in Hs. by rewrite Hs.
Qed.

Lemma sub_cost_memo_sym (xs ys : list ascii) (x y : ascii) :
  same_base_symmetric xs ys -> same_base_respects_unknown xs ys ->
  x ∈ xs -> y ∈ ys ->
  sub_cost_memo x y = sub_cost_memo y x.
Proof.
  intros HS HU Hx Hy. unfold sub_cost_memo.
  pose proof (Forall_Forall_elem _ _ _ HS x y Hx Hy) as Hs.
  pose proof (Forall_Forall_elem _ _ _ HU x y Hx Hy) as Hu.
  cbn beta in Hs, Hu. rewrite <- Hs.
  destruct (isSameBase x y); [rewrite Hu by done; done|].
  by destruct (isUnknownBase x), (isUnknownBase y).
Qed.

Lemma dist_sym_on (sub : ascii -> ascii -> Z) (xs ys : list ascii) :
  (forall x y, x ∈ xs -> y ∈ ys -> sub x y = sub y x) ->
  dist sub xs ys = dist sub ys xs.
Proof.
  intros Hsub. unfold dist. apply lev_sym.
  intros x y [_ Hx]%bases_elem [_ Hy]%bases_elem. by apply Hsub.
Qed.

Lemma order_cases (A B : list ascii) :
  order A B = (A, B) /\ (length B <= length A)%nat \/
  order A B = (B, A) /\ (length A < length B)%nat.
Proof.
  unfold order. destruct (Nat.leb_spec (length B) (length A)); [left|right]; done.
Qed.

(** On the ordered pair the distance is the distance of the pair as given,
    for a substitution cost that is symmetric on the two sequences. *)
Lemma dist_order (sub : ascii -> ascii -> Z) (A B : list ascii) :
  (forall x y, x ∈ A -> y ∈ B -> sub x y = sub y x) ->
  dist sub (order A B).1 (order A B).2 = dist sub A B.
Proof.
  intros Hsub. destruct (order_cases A B) as [[-> _]|[-> _]]; cbn [fst snd]; [done|].
  symmetry. by apply dist_sym_on.
Qed.

Lemma order_swap_length (A B : list ascii) :
  length (order B A).1 = length (order A B).1 /\
  length (order B A).2 = length (order A B).2.
Proof.
  destruct (order_cases A B) as [[-> ?]|[-> ?]],
           (order_cases B A) as [[-> ?]|[-> ?]]; cbn [fst snd]; lia.
Qed.

End SpecRecurrence.

(** ** The engines on the pair as given *)

Section EngineResults.
Context {BC : BaseClassifier}.

Lemma EditDistance_NW_Rec_dist (A B : list ascii) :
  EditDistance_NW_Rec A B =
  Done (dist sub_cost_memo (order A B).1 (order A B).2).
Proof. by rewrite EditDistance_NW_Rec_phi, phi_dist. Qed.

Lemma fits_int_swap (A B : list ascii) : fits_int A B -> fits_int B A.
Proof. unfold fits_int. lia. Qed.

(** The memoized engine on [(A, B)], for a same-base test that is symmetric
    and respects unknown bases on the two sequences. *)
Lemma EditDistance_NW_Rec_pair (A B : list ascii) :
  same_base_symmetric A B -> same_base_respects_unknown A B ->
  EditDistance_NW_Rec A B = Done (dist sub_cost_memo A B).
Proof.
  intros HS HU. rewrite EditDistance_NW_Rec_dist, dist_order; [done|].
  intros x y Hx Hy. by apply (sub_cost_memo_sym A B).
Qed.

Lemma EditDistance_NW_iteratif_pair (A B : list ascii) :
  same_base_symmetric A B -> fits_int A B ->
  EditDistance_NW_iteratif A B = Done (dist sub_cost_iter A B).
Proof.
  intros HS Hsz. rewrite EditDistance_NW_iteratif_dist, dist_order; [done| |done].
  intros x y Hx Hy. by apply (sub_cost_iter_sym A B).
Qed.

(** Where the unknown base is never the same base as anything, the four
    engines agree: the memoized and the iterative engine always, the
    cache-aware engine for a block width of at least 1, the cache-oblivious
    engine when the threshold covers the shorter sequence. *)
Lemma engines_agree (A B : list ascii) :
  unknown_never_same (order A B).1 (order A B).2 -> fits_int A B ->
  exists d,
    EditDistance_NW_Rec A B = Done d /\
    EditDistance_NW_iteratif A B = Done d /\
    (forall fuel Zb, 40 <= Zb < 2 ^ 31 -> (length (order A B).2 <= fuel)%nat ->
       EditDistance_NW_cache_aware fuel A B Zb = Done d) /\
    (forall fuel t, (0 < fuel)%nat -> Z.of_nat (length (order A B).2) <= t ->
       EditDistance_NW_cache_oblivious fuel A B t = Done d).
Proof.
  intros HU Hsz. exists (dist sub_cost_iter (order A B).1 (order A B).2).
  split; [|split; [|split]].
  - rewrite EditDistance_NW_Rec_dist. f_equal. apply dist_ext.
    intros x y Hx Hy _ _. by apply (sub_cost_memo_iter (order A B).1 (order A B).2).
  - by apply EditDistance_NW_iteratif_dist.
  - intros fuel Zb HZ Hfuel.
    rewrite EditDistance_NW_cache_aware_outcome by done.
    rewrite nb_case_of_nonneg by lia.
    assert (1 <= Zb / 40) by (apply Z.div_le_lower_bound; lia).
    destruct (Z.ltb_spec (Zb / 40) 0); [lia|].
    rewrite blocks_done_enough by lia. done.
  - intros fuel t Hfuel Ht. by apply EditDistance_NW_cache_oblivious_direct.
Qed.

(** The cache-aware engine returns the value of the iterative engine for
    every budget of at least [5 * sizeof(long)] bytes. *)
Lemma EditDistance_NW_cache_aware_budget (fuel : nat) (A B : list ascii) (Zb : Z) :
  fits_int A B -> 40 <= Zb < 2 ^ 31 -> (length (order A B).2 <= fuel)%nat ->
  EditDistance_NW_cache_aware fuel A B Zb = EditDistance_NW_iteratif A B.
Proof.
  intros Hsz HZ Hfuel.
  rewrite EditDistance_NW_cache_aware_outcome, EditDistance_NW_iteratif_dist by done.
  rewrite nb_case_of_nonneg by lia.
  assert (1 <= Zb / 40) by (apply Z.div_le_lower_bound; lia).
  destruct (Z.ltb_spec (Zb / 40) 0); [lia|].
  rewrite blocks_done_enough by lia. done.
Qed.

(** Below [5 * sizeof(long)] bytes the block width is 0 and the block loop
    makes no progress. *)
Lemma EditDistance_NW_cache_aware_stuck (fuel : nat) (A B : list ascii) (Zb : Z) :
  fits_int A B -> 0 <= Zb < 40 -> (0 < length (order A B).2)%nat ->
  EditDistance_NW_cache_aware fuel A B Zb = OutOfFuel.
Proof.
  intros Hsz HZ HN.
  rewrite EditDistance_NW_cache_aware_outcome by done.
  rewrite nb_case_of_nonneg by lia. rewrite Z.div_small by lia.
  cbn [Z.ltb Z.compare]. by rewrite blocks_done_never by lia.
Qed.

(** Deleting a non-base character does not change the bases. *)
Lemma bases_delete (A : list ascii) (p : nat) (c : ascii) :
  A !! p = Some c -> isBase c = false -> bases (delete p A) = bases A.
Proof.
  revert p. induction A as [|a A IH]; intros [|p] E Hc; try done.
  - injection E as ->. simpl. by rewrite bases_cons_nonbase.
  - simpl in E. change (delete (S p) (a :: A)) with (a :: delete p A).
    destruct (isBase a) eqn:Ea.
    + rewrite !bases_cons_base by done. f_equal. by apply IH.
    + rewrite !bases_cons_nonbase by done. by apply IH.
Qed.

Lemma Forall_Forall_delete_l {T : Type} (P : T -> T -> Prop) (A B : list T) (p : nat) :
  Forall (fun x => Forall (fun y => P x y) B) A ->
  Forall (fun x => Forall (fun y => P x y) B) (delete p A).
Proof. apply Forall_delete. Qed.

Lemma Forall_Forall_delete_r {T : Type} (P : T -> T -> Prop) (A B : list T) (p : nat) :
  Forall (fun x => Forall (fun y => P x y) B) A ->
  Forall (fun x => Forall (fun y => P x y) (delete p B)) A.
Proof.
  intros HF. eapply Forall_impl; [exact HF|]. intros x. apply Forall_delete.
Qed.

Lemma order_2_length (A B : list ascii) :
  length (order A B).2 = (length A `min` length B)%nat.
Proof. destruct (order_cases A B) as [[-> ?]|[-> ?]]; cbn [fst snd]; lia. Qed.

(** The engines on a pair [(A', B')] with the bases of [(A, B)] and no
    longer than it: where they return on [(A, B)] with enough budget, they
    return the same value on [(A', B')]. *)
Lemma same_bases_same_distance (A B A' B' : list ascii) :
  same_base_symmetric A B -> same_base_respects_unknown A B -> fits_int A B ->
  same_base_symmetric A' B' -> same_base_respects_unknown A' B' ->
  bases A' = bases A -> bases B' = bases B ->
  (length A' <= length A)%nat -> (length B' <= length B)%nat ->
  EditDistance_NW_Rec A' B' = EditDistance_NW_Rec A B /\
  EditDistance_NW_iteratif A' B' = EditDistance_NW_iteratif A B /\
  (forall fuel Zb, 40 <= Zb < 2 ^ 31 -> (length (order A B).2 <= fuel)%nat ->
     EditDistance_NW_cache_aware fuel A' B' Zb = EditDistance_NW_cache_aware fuel A B Zb) /\
  (forall fuel t, (0 < fuel)%nat -> Z.of_nat (length (order A B).2) <= t ->
     EditDistance_NW_cache_oblivious fuel A' B' t
     = EditDistance_NW_cache_oblivious fuel A B t).
Proof.
  intros HS HU Hsz HS' HU' HA HB HlA HlB.
  assert (Hsz' : fits_int A' B') by (unfold fits_int in *; lia).
  assert (HN : (length (order A' B').2 <= length (order A B).2)%nat)
    by (rewrite !order_2_length; lia).
  assert (Hit : EditDistance_NW_iteratif A' B' = EditDistance_NW_iteratif A B).
  { rewrite !EditDistance_NW_iteratif_pair by done. unfold dist. by rewrite HA, HB. }
  split; [|split; [done|split]].
  - rewrite !EditDistance_NW_Rec_pair by done. unfold dist. by rewrite HA, HB.
  - intros fuel Zb HZ Hfuel.
    rewrite !EditDistance_NW_cache_aware_budget by (done || lia). done.
  - intros fuel t Hfuel Ht.
    rewrite !EditDistance_NW_cache_oblivious_direct by (done || lia).
    rewrite <- !EditDistance_NW_iteratif_dist by done. done.
Qed.

(** Non-base characters are skipped at no cost: deleting one from either
    sequence leaves the distance unchanged, for the memoized and the
    iterative engine, for the cache-aware engine with a budget of at least
    40 bytes and for the cache-oblivious engine with a threshold that covers
    the shorter sequence. *)
Lemma nonbase_deletion_left (A B : list ascii) (p : nat) (c : ascii) :
  same_base_symmetric A B -> same_base_respects_unknown A B -> fits_int A B ->
  A !! p = Some c -> isBase c = false ->
  EditDistance_NW_Rec (delete p A) B = EditDistance_NW_Rec A B /\
  EditDistance_NW_iteratif (delete p A) B = EditDistance_NW_iteratif A B /\
  (forall fuel Zb, 40 <= Zb < 2 ^ 31 -> (length (order A B).2 <= fuel)%nat ->
     EditDistance_NW_cache_aware fuel (delete p A) B Zb
     = EditDistance_NW_cache_aware fuel A B Zb) /\
  (forall fuel t, (0 < fuel)%nat -> Z.of_nat (length (order A B).2) <= t ->
     EditDistance_NW_cache_oblivious fuel (delete p A) B t
     = EditDistance_NW_cache_oblivious fuel A B t).
Proof.
  intros HS HU Hsz E Hc.
  apply same_bases_same_distance; try done.
  - by apply Forall_Forall_delete_l.
  - by apply Forall_Forall_delete_l.
  - by apply (bases_delete A p c).
  - rewrite length_delete by by exists c. lia.
Qed.

Lemma nonbase_deletion_right (A B : list ascii) (p : nat) (c : ascii) :
  same_base_symmetric A B -> same_base_respects_unknown A B -> fits_int A B ->
  B !! p = Some c -> isBase c = false ->
  EditDistance_NW_Rec A (delete p B) = EditDistance_NW_Rec A B /\
  EditDistance_NW_iteratif A (delete p B) = EditDistance_NW_iteratif A B /\
  (forall fuel Zb, 40 <= Zb < 2 ^ 31 -> (length (order A B).2 <= fuel)%nat ->
     EditDistance_NW_cache_aware fuel A (delete p B) Zb
     = EditDistance_NW_cache_aware fuel A B Zb) /\
  (forall fuel t, (0 < fuel)%nat -> Z.of_nat (length (order A B).2) <= t ->
     EditDistance_NW_cache_oblivious fuel A (delete p B) t
     = EditDistance_NW_cache_oblivious fuel A B t).
Proof.
  intros HS HU Hsz E Hc.
  apply same_bases_same_distance; try done.
  - by apply Forall_Forall_delete_r.
  - by apply Forall_Forall_delete_r.
  - by apply (bases_delete B p c).
  - rewrite length_delete by by exists c. lia.
Qed.

End EngineResults.

(** * The claims *)

Section GeneralClaims.
Context {BC : BaseClassifier}.

Lemma dist_order_swap (sub : ascii -> ascii -> Z) (A B : list ascii) :
  (forall x y, x ∈ A -> y ∈ B -> sub x y = sub y x) ->
  dist sub (order B A).1 (order B A).2 = dist sub (order A B).1 (order A B).2.
Proof.
  intros Hsub. rewrite (dist_order sub A B) by done.
  rewrite (dist_order sub B A) by (intros x y Hx Hy; symmetry; by apply Hsub).
  symmetry. by apply dist_sym_on.
Qed.

Lemma dist_self_iter (A : list ascii) :
  same_base_reflexive A -> dist sub_cost_iter A A = 0.
Proof.
  intros HR. unfold dist. apply lev_diag.
  - intros x y. apply sub_cost_iter_range.
  - intros x [Hb Hx]%bases_elem. unfold same_base_reflexive in HR.
    rewrite Forall_forall in HR. unfold sub_cost_iter. by rewrite (HR x Hx Hb).
Qed.

Lemma dist_self_memo (A : list ascii) :
  same_base_reflexive A -> no_unknown_base A -> dist sub_cost_memo A A = 0.
Proof.
  intros HR HK. unfold dist. apply lev_diag.
  - intros x y. unfold sub_cost_memo, SUBSTITUTION_COST, SUBSTITUTION_UNKNOWN_COST.
    destruct (isUnknownBase x), (isSameBase x y); lia.
  - intros x [Hb Hx]%bases_elem. unfold same_base_reflexive, no_unknown_base in *.
    rewrite Forall_forall in HR, HK. unfold sub_cost_memo.
    by rewrite (HK x Hx), (HR x Hx Hb).
Qed.

Lemma order_self (A : list ascii) : order A A = (A, A).
Proof. unfold order. by rewrite Nat.leb_refl. Qed.

(** C3, as amended: for every sequence [A] that contains no unknown base
    (non-base characters allowed) and on whose bases the same-base test is
    reflexive, the distance of [A] against itself is 0: for the memoized and
    the iterative engine, for the cache-aware engine with a budget of at
    least 40 bytes and for the cache-oblivious engine with a threshold of at
    least the length of [A]. *)
Theorem C3_self_distance_zero (A : list ascii) :
  no_unknown_base A -> same_base_reflexive A -> fits_int A A ->
  EditDistance_NW_Rec A A = Done 0 /\
  EditDistance_NW_iteratif A A = Done 0 /\
  (forall fuel Zb, 40 <= Zb < 2 ^ 31 -> (length A <= fuel)%nat ->
     EditDistance_NW_cache_aware fuel A A Zb = Done 0) /\
  (forall fuel t, (0 < fuel)%nat -> Z.of_nat (length A) <= t ->
     EditDistance_NW_cache_oblivious fuel A A t = Done 0).
Proof.
  intros HK HR Hsz.
  assert (Hit : EditDistance_NW_iteratif A A = Done 0).
  { rewrite EditDistance_NW_iteratif_dist by done.
    rewrite order_self. cbn [fst snd]. by rewrite dist_self_iter. }
  split; [|split; [done|split]].
  - rewrite EditDistance_NW_Rec_dist, order_self. cbn [fst snd].
    by rewrite dist_self_memo.
  - intros fuel Zb HZ Hfuel. rewrite <- Hit.
    apply EditDistance_NW_cache_aware_budget; [done|done|].
    by rewrite order_self.
  - intros fuel t Hfuel Ht.
    rewrite EditDistance_NW_cache_oblivious_direct;
      rewrite ?order_self; cbn [fst snd]; [|done|done].
    by rewrite dist_self_iter.
Qed.

(** C4: [EditDistance_NW_Rec] returns the value at [(0, 0)] of the
    recurrence of section 4.1 over the ordered pair: with X the longer of
    the two sequences and Y the shorter (X is [A] when the lengths are
    equal, lines 110-123), whatever function [f] satisfies the equations of
    that section for X and Y, the engine returns [f 0 0].  The same-base
    test is assumed never to equate a known base of X with an unknown base
    of Y. *)
Theorem C4_rec_returns_recurrence (A B X Y : list ascii) (f : nat -> nat -> Z) :
  ((length B <= length A)%nat /\ X = A /\ Y = B) \/
  ((length A < length B)%nat /\ X = B /\ Y = A) ->
  known_same_is_known X Y ->
  recurrence_4_1 X Y f ->
  EditDistance_NW_Rec A B = Done (f 0%nat 0%nat).
Proof.
  intros Hord HK Hf.
  assert (Ho : order A B = (X, Y)).
  { destruct (order_cases A B) as [[-> ?]|[-> ?]],
             Hord as [(? & -> & ->)|(? & -> & ->)]; (done || lia). }
  rewrite EditDistance_NW_Rec_dist, Ho. cbn [fst snd]. f_equal.
  rewrite (recurrence_4_1_unique _ _ f Hf _ 0%nat 0%nat
             ltac:(lia) ltac:(lia) eq_refl).
  rewrite !drop_0. symmetry. apply dist_ext.
  intros x y Hx Hy _ _. by apply (sub_cost_spec_memo X Y).
Qed.

(** X16: where the engines return, the order of the two arguments does not
    matter, also when the two sequences have the same length: the memoized
    and the iterative engine return the same value for [(A, B)] and for
    [(B, A)], and so do the cache-aware engine for every budget of at least
    40 bytes and the cache-oblivious engine for every threshold of at least
    the length of the shorter sequence. *)
Theorem X16_argument_order_where_defined (A B : list ascii) :
  same_base_symmetric A B -> same_base_respects_unknown A B -> fits_int A B ->
  exists d_rec d_iter,
    EditDistance_NW_Rec A B = Done d_rec /\
    EditDistance_NW_Rec B A = Done d_rec /\
    EditDistance_NW_iteratif A B = Done d_iter /\
    EditDistance_NW_iteratif B A = Done d_iter /\
    (forall fuel Zb, 40 <= Zb < 2 ^ 31 -> (length (order A B).2 <= fuel)%nat ->
       EditDistance_NW_cache_aware fuel A B Zb = Done d_iter /\
       EditDistance_NW_cache_aware fuel B A Zb = Done d_iter) /\
    (forall fuel t, (0 < fuel)%nat -> Z.of_nat (length (order A B).2) <= t ->
       EditDistance_NW_cache_oblivious fuel A B t = Done d_iter /\
       EditDistance_NW_cache_oblivious fuel B A t = Done d_iter).
Proof.
  intros HS HU Hsz.
  assert (Hmemo : dist sub_cost_memo (order B A).1 (order B A).2
                  = dist sub_cost_memo (order A B).1 (order A B).2).
  { apply dist_order_swap. intros x y Hx Hy. by apply (sub_cost_memo_sym A B). }
  assert (Hiter : dist sub_cost_iter (order B A).1 (order B A).2
                  = dist sub_cost_iter (order A B).1 (order A B).2).
  { apply dist_order_swap. intros x y Hx Hy. by apply (sub_cost_iter_sym A B). }
  destruct (order_swap_length A B) as [_ HN].
  pose proof (fits_int_swap A B Hsz) as Hsz'.
  exists (dist sub_cost_memo (order A B).1 (order A B).2),
         (dist sub_cost_iter (order A B).1 (order A B).2).
  split; [apply EditDistance_NW_Rec_dist|].
  split; [by rewrite EditDistance_NW_Rec_dist, Hmemo|].
  split; [by apply EditDistance_NW_iteratif_dist|].
  split; [by rewrite EditDistance_NW_iteratif_dist, Hiter|].
  split.
  - intros fuel Zb HZ Hfuel.
    rewrite !EditDistance_NW_cache_aware_budget by (done || lia).
    by rewrite !EditDistance_NW_iteratif_dist, Hiter.
  - intros fuel t Hfuel Ht.
    rewrite !EditDistance_NW_cache_oblivious_direct by (done || lia).
    by rewrite Hiter.
Qed.

End GeneralClaims.

(** * Further properties of the engines *)

Section MemoProperties.
Context {BC : BaseClassifier}.

Lemma sub_cost_memo_range (x y : ascii) : 0 <= sub_cost_memo x y <= 1.
Proof.
  unfold sub_cost_memo, SUBSTITUTION_COST, SUBSTITUTION_UNKNOWN_COST.
  destruct (isUnknownBase x), (isSameBase x y); lia.
Qed.

(** The distance is at least the cost of inserting the surplus of the
    longer sequence, and at most that cost plus one substitution per
    character of the shorter. *)
Lemma lev_bounds (sub : ascii -> ascii -> Z) (xs ys : list ascii) :
  (forall x y, 0 <= sub x y <= 1) ->
  2 * (Z.of_nat (length xs) - Z.of_nat (length ys)) <= lev sub xs ys /\
  2 * (Z.of_nat (length ys) - Z.of_nat (length xs)) <= lev sub xs ys /\
  lev sub xs ys <= 2 * Z.max (Z.of_nat (length xs)) (Z.of_nat (length ys))
                   - Z.min (Z.of_nat (length xs)) (Z.of_nat (length ys)).
Proof.
  intros Hsub. revert ys. induction xs as [|x xs IHx]; intros ys.
  - rewrite lev_nil_l. unfold INSERTION_COST. simpl length. lia.
  - induction ys as [|y ys IHy].
    + rewrite lev_nil_r. unfold INSERTION_COST. simpl length. lia.
    + rewrite lev_cons_cons. specialize (Hsub x y).
      pose proof (IHx ys) as H1. pose proof (IHx (y :: ys)) as H2.
      unfold INSERTION_COST. simpl length in *. lia.
Qed.

(** The distance between two sequences of bases is 0 exactly when they
    match position by position at no substitution cost. *)
Lemma lev_zero (sub : ascii -> ascii -> Z) (xs ys : list ascii) :
  (forall x y, 0 <= sub x y) ->
  lev sub xs ys = 0 <-> Forall2 (fun x y => sub x y = 0) xs ys.
Proof.
  intros Hsub. revert ys. induction xs as [|x xs IHx]; intros ys.
  - rewrite lev_nil_l. unfold INSERTION_COST. split.
    + intros E. destruct ys; [constructor|simpl length in E; lia].
    + intros ->%Forall2_nil_inv_l. simpl. lia.
  - destruct ys as [|y ys].
    + rewrite lev_nil_r. unfold INSERTION_COST. split.
      * simpl length. lia.
      * intros HF. inversion HF.
    + rewrite lev_cons_cons. unfold INSERTION_COST.
      pose proof (lev_nonneg sub xs ys Hsub).
      pose proof (lev_nonneg sub xs (y :: ys) Hsub).
      pose proof (lev_nonneg sub (x :: xs) ys Hsub).
      pose proof (Hsub x y). split.
      * intros E. constructor; [lia|]. apply IHx. lia.
      * intros HF. apply Forall2_cons_1 in HF as [E HF].
        apply IHx in HF. lia.
Qed.

Lemma sub_cost_memo_zero (x y : ascii) :
  sub_cost_memo x y = 0 <-> isUnknownBase x = false /\ isSameBase x y = true.
Proof.
  unfold sub_cost_memo, SUBSTITUTION_COST, SUBSTITUTION_UNKNOWN_COST.
  destruct (isUnknownBase x), (isSameBase x y); split; (lia || done || intros [? ?]; done).
Qed.

Lemma order_bases_lengths (A B : list ascii) :
  (length (bases (order A B).1) = length (bases A) /\
   length (bases (order A B).2) = length (bases B)) \/
  (length (bases (order A B).1) = length (bases B) /\
   length (bases (order A B).2) = length (bases A)).
Proof. destruct (order_cases A B) as [[-> _]|[-> _]]; cbn [fst snd]; auto. Qed.

(** X1: the memoized engine returns for every pair of sequences, and its
    value is the edit distance (insertion 2, substitution [sub_cost_memo])
    between the two sequences with their non-base characters removed: it
    depends on the bases of the longer and of the shorter sequence only. *)
Theorem X1_Rec_is_distance_of_bases (A B : list ascii) :
  EditDistance_NW_Rec A B =
  Done (lev sub_cost_memo (bases (order A B).1) (bases (order A B).2)).
Proof. by rewrite EditDistance_NW_Rec_dist. Qed.

(** X2: the value of the memoized engine is never negative (so never the
    sentinel [NOT_YET_COMPUTED]): with [a] and [b] the numbers of bases of the
    two sequences, it lies between [2 * |a - b|] and
    [2 * max a b - min a b]. *)
Theorem X2_Rec_bounds (A B : list ascii) :
  exists d, EditDistance_NW_Rec A B = Done d /\
    0 <= d /\
    2 * (Z.of_nat (length (bases A)) - Z.of_nat (length (bases B))) <= d /\
    2 * (Z.of_nat (length (bases B)) - Z.of_nat (length (bases A))) <= d /\
    d <= 2 * Z.max (Z.of_nat (length (bases A))) (Z.of_nat (length (bases B)))
         - Z.min (Z.of_nat (length (bases A))) (Z.of_nat (length (bases B))).
Proof.
  eexists. split; [apply EditDistance_NW_Rec_dist|]. unfold dist.
  pose proof (lev_bounds sub_cost_memo (bases (order A B).1) (bases (order A B).2)
                sub_cost_memo_range) as Hb.
  destruct (order_bases_lengths A B) as [[E1 E2]|[E1 E2]];
    rewrite E1, E2 in Hb; lia.
Qed.

(** X3: the memoized engine returns 0 exactly when the bases of the longer
    and of the shorter sequence match one to one, each base of the longer
    being a known base and the same base as its counterpart. *)
Theorem X3_Rec_zero_iff (A B : list ascii) :
  EditDistance_NW_Rec A B = Done 0 <->
  Forall2 (fun x y => isUnknownBase x = false /\ isSameBase x y = true)
          (bases (order A B).1) (bases (order A B).2).
Proof.
  rewrite EditDistance_NW_Rec_dist. unfold dist.
  assert (Hz := lev_zero sub_cost_memo (bases (order A B).1) (bases (order A B).2)
                  (fun x y => proj1 (sub_cost_memo_range x y))).
  split.
  - intros [= E]. apply Hz in E.
    eapply Forall2_impl; [exact E|]. intros x y. apply sub_cost_memo_zero.
  - intros HF. f_equal. apply Hz.
    eapply Forall2_impl; [exact HF|]. intros x y. apply sub_cost_memo_zero.
Qed.

End MemoProperties.

(** ** The memo table and the anomaly hook *)

Section MemoState.
Context {BC : BaseClassifier}.
Variables X Y : list ascii.

Lemma phi_memo_nonneg (xs ys : list ascii) : 0 <= phi sub_cost_memo xs ys.
Proof.
  rewrite phi_dist. apply dist_nonneg. intros x y. apply sub_cost_memo_range.
Qed.

(** A call that returns leaves its value in the cell [memo[i][j]]. *)
Lemma EditDistance_NW_RecMemo_stored (fuel : nat) (c : NW_MemoContext)
    (i j : nat) (s s' : memo_state) (r : Z) :
  EditDistance_NW_RecMemo fuel c i j s = Done (r, s') ->
  read2 (memo s') i j = Done r.
Proof.
  destruct fuel as [|fuel]; [done|]. cbn [EditDistance_NW_RecMemo].
  intros (v & Ev & E)%bind_Done_inv.
  destruct (v =? NOT_YET_COMPUTED).
  - apply bind_Done_inv in E as (Xi & _ & E).
    apply bind_Done_inv in E as (Yj & _ & E).
    apply bind_Done_inv in E as ([res s1] & _ & E). cbv beta iota in E.
    apply bind_Done_inv in E as (memo' & _ & E).
    apply bind_Done_inv in E as (v' & Ev' & E).
    injection E as <- <-. done.
  - injection E as <- <-. done.
Qed.

Lemma char_at_elem (s : list ascii) (i : nat) (c : ascii) :
  char_at s i = Done c -> i <> length s -> c ∈ s.
Proof.
  intros E%read_Done Hi. apply lookup_app_Some in E as [E|[Hle E]].
  - by eapply list_elem_of_lookup_2.
  - destruct (i - length s)%nat as [|k] eqn:Ek; [lia|done].
Qed.

(** The characters a call passes to [ManageBaseError] are non-base
    characters of [X] or of [Y]. *)
Lemma EditDistance_NW_RecMemo_reported (fuel : nat) :
  forall (i j : nat) (s s' : memo_state) (r : Z),
    EditDistance_NW_RecMemo fuel
      {| ctx_X := X; ctx_Y := Y; ctx_M := length X; ctx_N := length Y |} i j s
    = Done (r, s') ->
    exists extra, reported s' = reported s ++ extra /\
      Forall (fun c => isBase c = false /\ (c ∈ X \/ c ∈ Y)) extra.
Proof.
  induction fuel as [|fuel IH]; intros i j s s' r; [done|].
  cbn [EditDistance_NW_RecMemo ctx_X ctx_Y ctx_M ctx_N].
  intros (v & Ev & E)%bind_Done_inv.
  destruct (v =? NOT_YET_COMPUTED).
  2:{ injection E as <- <-. exists []. by rewrite app_nil_r. }
  apply bind_Done_inv in E as (Xi & EXi & E).
  apply bind_Done_inv in E as (Yj & EYj & E).
  apply bind_Done_inv in E as ([res s1] & E1 & E). cbv beta iota in E.
  apply bind_Done_inv in E as (memo' & _ & E).
  apply bind_Done_inv in E as (v' & _ & E).
  injection E as <- <-. cbn [reported].
  destruct (Nat.eqb_spec i (length X)) as [HiM|HiM].
  - destruct (Nat.eqb_spec j (length Y)) as [HjN|HjN].
    + injection E1 as <- <-. exists []. by rewrite app_nil_r.
    + apply bind_Done_inv in E1 as ([r0 s0] & E0 & E1). cbv beta iota in E1.
      injection E1 as <- <-. by eapply IH.
  - destruct (Nat.eqb_spec j (length Y)) as [HjN|HjN].
    + apply bind_Done_inv in E1 as ([r0 s0] & E0 & E1). cbv beta iota in E1.
      injection E1 as <- <-. by eapply IH.
    + destruct (isBase Xi) eqn:EbX; cbn [negb] in E1.
      * destruct (isBase Yj) eqn:EbY; cbn [negb] in E1.
        -- apply bind_Done_inv in E1 as ([r1 s1'] & Ec1 & E1). cbv beta iota zeta in E1.
           apply bind_Done_inv in E1 as ([r2 s2] & Ec2 & E1). cbv beta iota zeta in E1.
           apply bind_Done_inv in E1 as ([r3 s3] & Ec3 & E1). cbv beta iota zeta in E1.
           injection E1 as _ <-.
           apply IH in Ec1 as (e1 & Hr1 & H1).
           apply IH in Ec2 as (e2 & Hr2 & H2).
           apply IH in Ec3 as (e3 & Hr3 & H3).
           exists (e1 ++ e2 ++ e3). rewrite Hr3, Hr2, Hr1, <- !app_assoc.
           split; [done|].
           by rewrite !Forall_app.
        -- apply IH in E1 as (e & -> & He). cbn [ManageBaseError reported].
           exists (Yj :: e). rewrite <- app_assoc. split; [done|].
           constructor; [|done]. split; [done|]. right. by eapply char_at_elem.
      * apply IH in E1 as (e & -> & He). cbn [ManageBaseError reported].
        exists (Xi :: e). rewrite <- app_assoc. split; [done|].
        constructor; [|done]. split; [done|]. left. by eapply char_at_elem.
Qed.

(** X4: memoization.  A call of [EditDistance_NW_RecMemo] on a cell of the
    table returns, and a second call on the same cell, from the state the
    first one left, returns the same value in one step (no recursive call)
    and leaves the table and the reported characters as they are. *)
Theorem X4_RecMemo_second_call (fuel i j : nat) (s : memo_state) :
  (i <= length X)%nat -> (j <= length Y)%nat ->
  ((length X - i) + (length Y - j) < fuel)%nat ->
  memo_ok X Y (memo s) ->
  exists r s',
    EditDistance_NW_RecMemo fuel
      {| ctx_X := X; ctx_Y := Y; ctx_M := length X; ctx_N := length Y |} i j s
    = Done (r, s') /\
    EditDistance_NW_RecMemo 1
      {| ctx_X := X; ctx_Y := Y; ctx_M := length X; ctx_N := length Y |} i j s'
    = Done (r, s').
Proof.
  intros Hi Hj Hfuel Hok.
  destruct (EditDistance_NW_RecMemo_correct X Y fuel i j s Hi Hj Hfuel Hok)
    as (s' & E & _).
  eexists _, s'. split; [exact E|].
  cbn [EditDistance_NW_RecMemo].
  rewrite (EditDistance_NW_RecMemo_stored _ _ _ _ _ _ _ E). cbn [mbind result_bind].
  pose proof (phi_memo_nonneg (drop i X) (drop j Y)) as Hpos.
  destruct (Z.eqb_spec (phi sub_cost_memo (drop i X) (drop j Y)) NOT_YET_COMPUTED)
    as [Hs|_]; [|done].
  unfold NOT_YET_COMPUTED in Hs. lia.
Qed.

End MemoState.

Section MemoReports.
Context {BC : BaseClassifier}.

(** X5: the memoized engine passes to [ManageBaseError] only non-base
    characters of the two sequences: never a base, never the terminating
    NUL read at [X[M]] or [Y[N]]. *)
Theorem X5_Rec_reports_only_nonbase (A B : list ascii) :
  exists d log,
    EditDistance_NW_Rec_run A B = Done (d, log) /\
    Forall (fun c => isBase c = false /\ (c ∈ A \/ c ∈ B)) log.
Proof.
  pose proof (EditDistance_NW_Rec_phi A B) as E.
  unfold EditDistance_NW_Rec in E.
  apply bind_Done_inv in E as ([d log] & E & _).
  exists d, log. split; [done|].
  unfold EditDistance_NW_Rec_run in E.
  destruct (order_cases A B) as [[Eo _]|[Eo _]]; rewrite Eo in E;
    apply bind_Done_inv in E as ([res s'] & Er & E); cbv beta iota in E;
    injection E as _ <-;
    apply EditDistance_NW_RecMemo_reported in Er as (extra & -> & HF);
    cbn [reported app]; (eapply Forall_impl; [exact HF|]);
    intros c [Hc Hin]; (split; [done|]); tauto.
Qed.

End MemoReports.

(** ** The iterative, cache-aware and cache-oblivious engines *)

Section IterativeProperties.
Context {BC : BaseClassifier}.

(** X6: for lengths within [fits_int] the iterative engine returns, with no
    access outside [tab], the edit distance (insertion 2, substitution 1
    unless [isSameBase]) between the two sequences with their non-base
    characters removed. *)
Theorem X6_iteratif_is_distance_of_bases (A B : list ascii) :
  fits_int A B ->
  EditDistance_NW_iteratif A B =
  Done (lev sub_cost_iter (bases (order A B).1) (bases (order A B).2)).
Proof. intros Hsz. by rewrite EditDistance_NW_iteratif_dist. Qed.

(** [fuel] turns of the block loop are enough exactly when [fuel] blocks of
    [nb_case] columns cover the [N] columns. *)
Lemma blocks_done_turns (fuel : nat) (N nb_case : Z) :
  0 <= nb_case ->
  blocks_done fuel N nb_case = (N <=? Z.of_nat fuel * nb_case).
Proof.
  intros Hnb. revert N. induction fuel as [|fuel IH]; intros N.
  - cbn [blocks_done]. change (Z.of_nat 0 * nb_case) with 0.
    destruct (Z.ltb_spec 0 N), (Z.leb_spec N 0); (done || lia).
  - cbn [blocks_done]. rewrite IH, Nat2Z.inj_succ, Z.mul_succ_l.
    assert (0 <= Z.of_nat fuel * nb_case) by (apply Z.mul_nonneg_nonneg; lia).
    destruct (Z.ltb_spec 0 N).
    + destruct (Z.leb_spec (N - nb_case) (Z.of_nat fuel * nb_case)),
               (Z.leb_spec N (Z.of_nat fuel * nb_case + nb_case)); (done || lia).
    + destruct (Z.leb_spec N (Z.of_nat fuel * nb_case + nb_case)); (done || lia).
Qed.

(** X7: the cache-aware engine processes the shorter sequence in blocks of
    [Z / 40] columns, one per turn of [while (N > 0)].  For a budget
    [0 <= Z < 2^31] and lengths within [fits_int], it returns after [fuel]
    turns exactly when [fuel * (Z / 40)] covers the length [N] of the shorter
    sequence, and then its value is that of the iterative engine; otherwise
    the loop is still running. *)
Theorem X7_cache_aware_turns (fuel : nat) (A B : list ascii) (Zb : Z) :
  fits_int A B -> 0 <= Zb < 2 ^ 31 ->
  EditDistance_NW_cache_aware fuel A B Zb =
  if Z.of_nat (length (order A B).2) <=? Z.of_nat fuel * (Zb / 40)
  then EditDistance_NW_iteratif A B
  else OutOfFuel.
Proof.
  intros Hsz HZ.
  rewrite EditDistance_NW_cache_aware_outcome, EditDistance_NW_iteratif_dist by done.
  rewrite nb_case_of_nonneg by done.
  assert (0 <= Zb / 40) by (apply Z.div_pos; lia).
  destruct (Z.ltb_spec (Zb / 40) 0); [lia|].
  by rewrite blocks_done_turns.
Qed.

(** X8: the cache-oblivious engine returns a value exactly when its
    recursion budget is not 0 and the threshold is at least the length of
    the shorter sequence, so that the column range is not split; the value
    is the distance between the two sequences with their non-base characters
    removed. *)
Theorem X8_cache_oblivious_returns_iff (fuel : nat) (A B : list ascii)
    (seuil : Z) (v : Z) :
  EditDistance_NW_cache_oblivious fuel A B seuil = Done v <->
  (0 < fuel)%nat /\ Z.of_nat (length (order A B).2) <= seuil /\
  v = lev sub_cost_iter (bases (order A B).1) (bases (order A B).2).
Proof.
  split.
  - intros E.
    destruct (EditDistance_NW_cache_oblivious_Done _ _ _ _ _ E) as [Hfuel Hs].
    rewrite EditDistance_NW_cache_oblivious_direct in E by done.
    injection E as <-. done.
  - intros (Hfuel & Hs & ->). by apply EditDistance_NW_cache_oblivious_direct.
Qed.

(** X9: with a threshold of at least 1 and below the length of the shorter
    sequence, the cache-oblivious engine splits the column range and ends
    in a read of [tab] outside its bounds, whatever the sequences hold. *)
Theorem X9_cache_oblivious_split_out_of_bounds (fuel : nat) (A B : list ascii)
    (seuil : Z) :
  1 <= seuil -> seuil < Z.of_nat (length (order A B).2) ->
  (length (order A B).2 < fuel)%nat ->
  EditDistance_NW_cache_oblivious fuel A B seuil = OutOfBounds.
Proof. apply EditDistance_NW_cache_oblivious_split. Qed.

(** X10: a call of the helper on a sub-range [[debut_seq, fin_seq)] of the
    columns that does not start at 0, with a threshold of at least 1, never
    completes: whatever the boundary array holds, it reaches a base case
    that declares [tab] with [taille + 1] elements and reads
    [tab[fin_seq]], beyond them. *)
Theorem X10_helper_inner_range_out_of_bounds (X Y : list ascii) (fuel : nat)
    (col : list Z) (seuil : Z) (d f : nat) :
  1 <= seuil -> (0 < d <= f)%nat -> (f <= length Y)%nat ->
  (0 < length col)%nat -> (f - d < fuel)%nat ->
  cache_oblivious_helper fuel X (length X) Y (length Y) col seuil
    (Z.of_nat d) (Z.of_nat f) = OutOfBounds.
Proof. intros Hs Hd Hf Hl Hfuel. by apply cache_oblivious_helper_right. Qed.

(** With a negative threshold every sub-range is split, the empty ones
    too. *)
Lemma cache_oblivious_helper_negative (X Y : list ascii) (M N : nat)
    (seuil : Z) (fuel : nat) :
  seuil < 0 ->
  forall (d f : Z) (col : list Z), d <= f ->
    cache_oblivious_helper fuel X M Y N col seuil d f = OutOfFuel.
Proof.
  intros Hs. induction fuel as [|fuel IH]; intros d f col Hd; [done|].
  cbn [cache_oblivious_helper].
  destruct (Z.ltb_spec seuil (f - d)); [|lia].
  assert (0 <= Z.quot (f - d) 2).
  { rewrite Z.quot_div_nonneg by lia. apply Z.div_pos; lia. }
  rewrite IH by lia. done.
Qed.

(** X11: the cache-oblivious engine does not return for a threshold that is
    not positive: with a negative threshold on any pair of sequences, with
    the threshold 0 as soon as the shorter sequence is not empty.  The
    helper has no guard against a sub-range that cannot shrink. *)
Theorem X11_cache_oblivious_nonpositive_threshold (fuel : nat) (A B : list ascii)
    (seuil : Z) :
  seuil < 0 \/ (seuil = 0 /\ (0 < length (order A B).2)%nat) ->
  EditDistance_NW_cache_oblivious fuel A B seuil = OutOfFuel.
Proof.
  intros [Hs|[-> HN]]; [|by apply EditDistance_NW_cache_oblivious_threshold_0].
  unfold EditDistance_NW_cache_oblivious.
  destruct (order A B) as [X Y].
  rewrite write_lt by (rewrite length_replicate; lia). cbn [mbind result_bind].
  destruct (init_col_replicate X Y) as (col1 & E1 & Hcol1).
  rewrite E1. cbn [mbind result_bind].
  rewrite cache_oblivious_helper_negative by lia. done.
Qed.

(** X12: outside the three defects the four engines agree.  Where an
    unknown base is never the same base as a character of the other
    sequence, and for lengths within [fits_int], the memoized and the
    iterative engine return the same distance, the cache-aware engine
    returns it for every budget of at least 40 bytes and the cache-oblivious
    engine for every threshold of at least the length of the shorter
    sequence. *)
Theorem X12_engines_agree (A B : list ascii) :
  unknown_never_same (order A B).1 (order A B).2 -> fits_int A B ->
  exists d,
    EditDistance_NW_Rec A B = Done d /\
    EditDistance_NW_iteratif A B = Done d /\
    (forall fuel Zb, 40 <= Zb < 2 ^ 31 -> (length (order A B).2 <= fuel)%nat ->
       EditDistance_NW_cache_aware fuel A B Zb = Done d) /\
    (forall fuel t, (0 < fuel)%nat -> Z.of_nat (length (order A B).2) <= t ->
       EditDistance_NW_cache_oblivious fuel A B t = Done d).
Proof. apply engines_agree. Qed.

(** X13: non-base characters are skipped at no cost.  Deleting one from the
    first or from the second sequence leaves the result unchanged: for the
    memoized and the iterative engine, for the cache-aware engine with a
    budget of at least 40 bytes and for the cache-oblivious engine with a
    threshold of at least the length of the shorter sequence. *)
Theorem X13_nonbase_deletion (A B : list ascii) (p : nat) (c : ascii) (left : bool) :
  same_base_symmetric A B -> same_base_respects_unknown A B -> fits_int A B ->
  (if left then A else B) !! p = Some c -> isBase c = false ->
  let A' := if left then delete p A else A in
  let B' := if left then B else delete p B in
  EditDistance_NW_Rec A' B' = EditDistance_NW_Rec A B /\
  EditDistance_NW_iteratif A' B' = EditDistance_NW_iteratif A B /\
  (forall fuel Zb, 40 <= Zb < 2 ^ 31 -> (length (order A B).2 <= fuel)%nat ->
     EditDistance_NW_cache_aware fuel A' B' Zb = EditDistance_NW_cache_aware fuel A B Zb) /\
  (forall fuel t, (0 < fuel)%nat -> Z.of_nat (length (order A B).2) <= t ->
     EditDistance_NW_cache_oblivious fuel A' B' t
     = EditDistance_NW_cache_oblivious fuel A B t).
Proof.
  intros HS HU Hsz E Hc. destruct left; cbn zeta.
  - by apply (nonbase_deletion_left A B p c).
  - by apply (nonbase_deletion_right A B p c).
Qed.

Lemma order_nil_r (A : list ascii) : order A [] = (A, []).
Proof. done. Qed.

Lemma order_nil_l (A : list ascii) : order [] A = (A, []).
Proof. unfold order. by destruct A. Qed.

Lemma dist_nil_r (sub : ascii -> ascii -> Z) (A : list ascii) :
  dist sub A [] = 2 * Z.of_nat (length (bases A)).
Proof. unfold dist. change (bases []) with (@nil ascii). by rewrite lev_nil_r. Qed.

(** X14: against the empty sequence, given first or second, every engine
    returns twice the number of bases of the other sequence (one insertion
    per base, nothing for a non-base character).  The block loop and the
    bisection are not entered: the cache-aware engine returns for every
    budget [0 <= Z < 2^31], the budgets below 40 included, and without a
    turn of its loop; the cache-oblivious engine returns for every threshold
    that is not negative. *)
Theorem X14_empty_sequence (A : list ascii) (swap : bool) :
  let A1 := if swap then [] else A in
  let B1 := if swap then A else [] in
  EditDistance_NW_Rec A1 B1 = Done (2 * Z.of_nat (length (bases A))) /\
  (fits_int A [] ->
   EditDistance_NW_iteratif A1 B1 = Done (2 * Z.of_nat (length (bases A))) /\
   forall Zb, 0 <= Zb < 2 ^ 31 ->
     EditDistance_NW_cache_aware 0 A1 B1 Zb
     = Done (2 * Z.of_nat (length (bases A)))) /\
  (forall fuel seuil, (0 < fuel)%nat -> 0 <= seuil ->
     EditDistance_NW_cache_oblivious fuel A1 B1 seuil
     = Done (2 * Z.of_nat (length (bases A)))).
Proof.
  cbn zeta.
  assert (Ho : order (if swap then [] else A) (if swap then A else []) = (A, []))
    by (destruct swap; [apply order_nil_l|apply order_nil_r]).
  assert (Hf : fits_int A [] ->
               fits_int (if swap then [] else A) (if swap then A else [])).
  { destruct swap; [apply fits_int_swap|done]. }
  split; [|split].
  - by rewrite EditDistance_NW_Rec_dist, Ho, dist_nil_r.
  - intros Hsz. specialize (Hf Hsz). split.
    + rewrite EditDistance_NW_iteratif_dist by exact Hf.
      by rewrite Ho, dist_nil_r.
    + intros Zb HZ.
      rewrite EditDistance_NW_cache_aware_outcome by exact Hf.
      rewrite Ho, nb_case_of_nonneg by done.
      assert (0 <= Zb / 40) by (apply Z.div_pos; lia).
      destruct (Z.ltb_spec (Zb / 40) 0); [lia|].
      cbn [fst snd blocks_done length]. by rewrite dist_nil_r.
  - intros fuel seuil Hfuel Hs.
    rewrite EditDistance_NW_cache_oblivious_direct; rewrite ?Ho; cbn [fst snd length];
      [by rewrite dist_nil_r|done|lia].
Qed.

End IterativeProperties.

Section EngineComparison.
Context {BC : BaseClassifier}.

Lemma lev_mono (sub sub' : ascii -> ascii -> Z) (xs ys : list ascii) :
  (forall x y, sub x y <= sub' x y) -> lev sub xs ys <= lev sub' xs ys.
Proof.
  intros Hsub. revert ys. induction xs as [|x xs IHx]; intros ys.
  - rewrite !lev_nil_l. lia.
  - induction ys as [|y ys IHy].
    + rewrite !lev_nil_r. lia.
    + rewrite !lev_cons_cons. specialize (Hsub x y).
      pose proof (IHx ys). pose proof (IHx (y :: ys)). lia.
Qed.

Lemma sub_cost_iter_le_memo (x y : ascii) : sub_cost_iter x y <= sub_cost_memo x y.
Proof.
  unfold sub_cost_iter, sub_cost_memo, SUBSTITUTION_COST, SUBSTITUTION_UNKNOWN_COST.
  destruct (isUnknownBase x), (isSameBase x y); simpl; lia.
Qed.

(** X15: the iterative engine never returns more than the memoized engine.
    Its mismatch cost [!isSameBase] leaves out the [isUnknownBase] test of
    the memoized engine, which can only lower the cost of a substitution. *)
Theorem X15_iteratif_at_most_Rec (A B : list ascii) :
  fits_int A B ->
  exists d_iter d_rec,
    EditDistance_NW_iteratif A B = Done d_iter /\
    EditDistance_NW_Rec A B = Done d_rec /\
    d_iter <= d_rec.
Proof.
  intros Hsz. eexists _, _.
  split; [by apply EditDistance_NW_iteratif_dist|].
  split; [apply EditDistance_NW_Rec_dist|].
  apply lev_mono, sub_cost_iter_le_memo.
Qed.

End EngineComparison.

(** * The claims on concrete sequences

    Sequences over the bases A, C, G, T, the unknown base N and the non-base
    character [-], classified by [acgtn_classifier]. *)

#[local] Existing Instance acgtn_classifier.
Local Open Scope string_scope.

(** The six scenarios of section 8 of the specification, on the memoized
    and the iterative engine. *)
Example scenarios_Rec :
  EditDistance_NW_Rec (seq_of "") (seq_of "") = Done 0 /\
  EditDistance_NW_Rec (seq_of "AC") (seq_of "AC") = Done 0 /\
  EditDistance_NW_Rec (seq_of "AC") (seq_of "AG") = Done 1 /\
  EditDistance_NW_Rec (seq_of "A") (seq_of "") = Done 2 /\
  EditDistance_NW_Rec (seq_of "AN") (seq_of "AC") = Done 1 /\
  EditDistance_NW_Rec (seq_of "A-C") (seq_of "AC") = Done 0.
Proof. repeat (split; [by vm_compute|]). by vm_compute. Qed.

Example scenarios_iteratif :
  EditDistance_NW_iteratif (seq_of "") (seq_of "") = Done 0 /\
  EditDistance_NW_iteratif (seq_of "AC") (seq_of "AC") = Done 0 /\
  EditDistance_NW_iteratif (seq_of "AC") (seq_of "AG") = Done 1 /\
  EditDistance_NW_iteratif (seq_of "A") (seq_of "") = Done 2 /\
  EditDistance_NW_iteratif (seq_of "AN") (seq_of "AC") = Done 1 /\
  EditDistance_NW_iteratif (seq_of "A-C") (seq_of "AC") = Done 0.
Proof. repeat (split; [by vm_compute|]). by vm_compute. Qed.

(** With a same-base test that holds between N and N, as in
    [acgtn_classifier], the memoized engine charges the unknown base against
    itself and the iterative engine, which does not test [isUnknownBase],
    does not. *)
Example unknown_base_Rec_iteratif :
  EditDistance_NW_Rec (seq_of "N") (seq_of "N") = Done 1 /\
  EditDistance_NW_iteratif (seq_of "N") (seq_of "N") = Done 0.
Proof. split; by vm_compute. Qed.

(** C1: the four entry points do not return the same distance for every
    valid threshold.  On ("ACGT", "AGGT") the memoized, the iterative and the
    cache-aware engine return 1; with the threshold 1 the cache-oblivious
    engine splits the column range, reads [tab[fin_seq]] beyond the
    [taille + 1] elements of [tab] and returns no value, whatever its
    recursion budget. *)
Theorem C1_engines_differ_on_split :
  EditDistance_NW_Rec (seq_of "ACGT") (seq_of "AGGT") = Done 1 /\
  EditDistance_NW_iteratif (seq_of "ACGT") (seq_of "AGGT") = Done 1 /\
  EditDistance_NW_cache_aware 2 (seq_of "ACGT") (seq_of "AGGT") 80 = Done 1 /\
  EditDistance_NW_cache_oblivious 5 (seq_of "ACGT") (seq_of "AGGT") 1 = OutOfBounds /\
  forall fuel v,
    EditDistance_NW_cache_oblivious fuel (seq_of "ACGT") (seq_of "AGGT") 1 <> Done v.
Proof.
  repeat (split; [by vm_compute|]).
  intros fuel v E. apply EditDistance_NW_cache_oblivious_Done in E as [_ E].
  by vm_compute in E.
Qed.

(** C2: the result of the cache-oblivious engine depends on the threshold.
    On ("AAA", "AAA") the threshold 3 (the length of the shorter sequence)
    gives 0, the threshold 1 ends in the out-of-bounds read of
    [tab[fin_seq]] and gives no value. *)
Theorem C2_threshold_changes_outcome :
  EditDistance_NW_cache_oblivious 4 (seq_of "AAA") (seq_of "AAA") 3 = Done 0 /\
  EditDistance_NW_cache_oblivious 4 (seq_of "AAA") (seq_of "AAA") 1 = OutOfBounds /\
  forall fuel v,
    EditDistance_NW_cache_oblivious fuel (seq_of "AAA") (seq_of "AAA") 1 <> Done v.
Proof.
  repeat (split; [by vm_compute|]).
  intros fuel v E. apply EditDistance_NW_cache_oblivious_Done in E as [_ E].
  by vm_compute in E.
Qed.

(** C3, as stated, fails: the memoized engine gives the distance 1, not 0,
    between "N" and itself, because an unknown base costs
    [SUBSTITUTION_UNKNOWN_COST] against any base. *)
Lemma C3_unknown_base_against_itself :
  EditDistance_NW_Rec (seq_of "N") (seq_of "N") <> Done 0.
Proof. by vm_compute. Qed.

(** [C3_self_distance_zero] on "AC-GT". *)
Lemma C3_self_distance_zero_witness :
  no_unknown_base (seq_of "AC-GT") /\
  same_base_reflexive (seq_of "AC-GT") /\
  fits_int (seq_of "AC-GT") (seq_of "AC-GT") /\
  EditDistance_NW_Rec (seq_of "AC-GT") (seq_of "AC-GT") = Done 0 /\
  EditDistance_NW_iteratif (seq_of "AC-GT") (seq_of "AC-GT") = Done 0 /\
  EditDistance_NW_cache_aware 5 (seq_of "AC-GT") (seq_of "AC-GT") 40 = Done 0 /\
  EditDistance_NW_cache_oblivious 1 (seq_of "AC-GT") (seq_of "AC-GT") 5 = Done 0.
Proof.
  assert (HK : no_unknown_base (seq_of "AC-GT")) by compute_done.
  assert (HR : same_base_reflexive (seq_of "AC-GT")) by compute_done.
  assert (Hsz : fits_int (seq_of "AC-GT") (seq_of "AC-GT")) by (vm_compute; reflexivity).
  destruct (C3_self_distance_zero (seq_of "AC-GT") HK HR Hsz) as (H1 & H2 & H3 & H4).
  split; [exact HK|]. split; [exact HR|]. split; [exact Hsz|].
  split; [exact H1|]. split; [exact H2|]. split.
  - apply H3; [lia | simpl; lia].
  - apply H4; [lia | simpl; lia].
Defined.

(** [C4_rec_returns_recurrence] on ("ANG", "AC-GT"): the second sequence
    is the longer, so X is "AC-GT" and Y is "ANG", whose unknown base meets
    the known bases of X. *)
Lemma C4_rec_returns_recurrence_witness :
  (((length (seq_of "AC-GT") <= length (seq_of "ANG"))%nat /\
    seq_of "AC-GT" = seq_of "ANG" /\ seq_of "ANG" = seq_of "AC-GT") \/
   ((length (seq_of "ANG") < length (seq_of "AC-GT"))%nat /\
    seq_of "AC-GT" = seq_of "AC-GT" /\ seq_of "ANG" = seq_of "ANG")) /\
  known_same_is_known (seq_of "AC-GT") (seq_of "ANG") /\
  recurrence_4_1 (seq_of "AC-GT") (seq_of "ANG")
                 (phi_spec (seq_of "AC-GT") (seq_of "ANG")) /\
  EditDistance_NW_Rec (seq_of "ANG") (seq_of "AC-GT")
  = Done (phi_spec (seq_of "AC-GT") (seq_of "ANG") 0%nat 0%nat).
Proof.
  assert (Hord :
    ((length (seq_of "AC-GT") <= length (seq_of "ANG"))%nat /\
     seq_of "AC-GT" = seq_of "ANG" /\ seq_of "ANG" = seq_of "AC-GT") \/
    ((length (seq_of "ANG") < length (seq_of "AC-GT"))%nat /\
     seq_of "AC-GT" = seq_of "AC-GT" /\ seq_of "ANG" = seq_of "ANG")).
  { right. split; [simpl; lia|]. split; reflexivity. }
  assert (HK : known_same_is_known (seq_of "AC-GT") (seq_of "ANG")) by compute_done.
  assert (Hf : recurrence_4_1 (seq_of "AC-GT") (seq_of "ANG")
                 (phi_spec (seq_of "AC-GT") (seq_of "ANG")))
    by apply (phi_spec_recurrence (seq_of "AC-GT") (seq_of "ANG")).
  split; [exact Hord|]. split; [exact HK|]. split; [exact Hf|].
  exact (C4_rec_returns_recurrence (seq_of "ANG") (seq_of "AC-GT")
           (seq_of "AC-GT") (seq_of "ANG")
           (phi_spec (seq_of "AC-GT") (seq_of "ANG")) Hord HK Hf).
Defined.

(** C5: calling an engine with [(A, B)] and with [(B, A)] does not return
    the same value for every engine.  On ("ACGT", "AGGT"), two sequences of
    the same length, the memoized and the iterative engine return 1 in both
    orders; with the threshold 1 the cache-oblivious engine splits the column
    range and reads [tab[fin_seq]] beyond the [taille + 1] elements of [tab]
    in both orders, and returns no value in either, whatever its recursion
    budget; with a budget of 8 bytes the cache-aware engine returns in
    neither order. *)
Theorem C5_no_value_in_either_order :
  EditDistance_NW_Rec (seq_of "ACGT") (seq_of "AGGT") = Done 1 /\
  EditDistance_NW_Rec (seq_of "AGGT") (seq_of "ACGT") = Done 1 /\
  EditDistance_NW_iteratif (seq_of "ACGT") (seq_of "AGGT") = Done 1 /\
  EditDistance_NW_iteratif (seq_of "AGGT") (seq_of "ACGT") = Done 1 /\
  EditDistance_NW_cache_oblivious 5 (seq_of "ACGT") (seq_of "AGGT") 1 = OutOfBounds /\
  EditDistance_NW_cache_oblivious 5 (seq_of "AGGT") (seq_of "ACGT") 1 = OutOfBounds /\
  (forall fuel v,
     EditDistance_NW_cache_oblivious fuel (seq_of "ACGT") (seq_of "AGGT") 1 <> Done v /\
     EditDistance_NW_cache_oblivious fuel (seq_of "AGGT") (seq_of "ACGT") 1 <> Done v) /\
  (forall fuel,
     EditDistance_NW_cache_aware fuel (seq_of "ACGT") (seq_of "AGGT") 8 = OutOfFuel /\
     EditDistance_NW_cache_aware fuel (seq_of "AGGT") (seq_of "ACGT") 8 = OutOfFuel).
Proof.
  repeat (split; [by vm_compute|]). split.
  - intros fuel v. split; intros E;
      apply EditDistance_NW_cache_oblivious_Done in E as [_ E];
      by vm_compute in E.
  - intros fuel. split; apply EditDistance_NW_cache_aware_stuck;
      [vm_compute; reflexivity | lia | vm_compute; lia
      |vm_compute; reflexivity | lia | vm_compute; lia].
Qed.

(** C6: the result of the cache-aware engine depends on the budget.  On
    ("ACGT", "ACT") a budget of 40 bytes gives 2; with a budget of 39 bytes
    the block width [Z / (5 * sizeof(long))] is 0, [N] never decreases and
    the block loop does not end, whatever its budget of turns. *)
Theorem C6_budget_changes_outcome :
  EditDistance_NW_cache_aware 3 (seq_of "ACGT") (seq_of "ACT") 40 = Done 2 /\
  forall fuel,
    EditDistance_NW_cache_aware fuel (seq_of "ACGT") (seq_of "ACT") 39 = OutOfFuel.
Proof.
  split; [by vm_compute|].
  intros fuel. apply EditDistance_NW_cache_aware_stuck;
    [vm_compute; reflexivity | lia | vm_compute; lia].
Qed.

(** C7: not every call runs to completion.  On ("A", "A") with a budget of
    8 bytes the block width of the cache-aware engine is 0 and no number of
    turns ends its block loop; with the threshold 0 the cache-oblivious
    engine splits [[0, 1)] into [[0, 0)] and [[0, 1)] for ever. *)
Theorem C7_block_loop_does_not_terminate :
  (forall fuel,
     EditDistance_NW_cache_aware fuel (seq_of "A") (seq_of "A") 8 = OutOfFuel) /\
  (forall fuel,
     EditDistance_NW_cache_oblivious fuel (seq_of "A") (seq_of "A") 0 = OutOfFuel).
Proof.
  split; intros fuel.
  - apply EditDistance_NW_cache_aware_stuck;
      [vm_compute; reflexivity | lia | vm_compute; lia].
  - apply EditDistance_NW_cache_oblivious_threshold_0. vm_compute. lia.
Qed.

(** C8: deleting a non-base character changes what two of the engines do.
    With a budget of 8 bytes the cache-aware engine does not return on
    ("-", "A") and returns 2 once [-] is deleted; with the threshold 2 the
    cache-oblivious engine ends in the out-of-bounds read on ("A-C", "ACG")
    and returns 2 once [-] is deleted. *)
Theorem C8_deletion_changes_outcome :
  delete 0%nat (seq_of "-") = seq_of "" /\
  (forall fuel,
     EditDistance_NW_cache_aware fuel (seq_of "-") (seq_of "A") 8 = OutOfFuel) /\
  EditDistance_NW_cache_aware 0 (delete 0%nat (seq_of "-")) (seq_of "A") 8 = Done 2 /\
  delete 1%nat (seq_of "A-C") = seq_of "AC" /\
  EditDistance_NW_cache_oblivious 4 (seq_of "A-C") (seq_of "ACG") 2 = OutOfBounds /\
  EditDistance_NW_cache_oblivious 4 (delete 1%nat (seq_of "A-C")) (seq_of "ACG") 2
  = Done 2.
Proof.
  split; [by vm_compute|]. split.
  { intros fuel. apply EditDistance_NW_cache_aware_stuck;
      [vm_compute; reflexivity | lia | vm_compute; lia]. }
  repeat (split; [by vm_compute|]). by vm_compute.
Qed.

(** C9: the anomaly hook is not invoked for every non-base character met.
    The memoized engine reports the [-] of ("-A", "A"), met inside the table,
    but not the [-] of ("-", ""), met on the boundary [j = N] (line 66); the
    three other engines contain no call of [ManageBaseError]. *)
Theorem C9_boundary_nonbase_not_reported :
  EditDistance_NW_Rec_run (seq_of "-A") (seq_of "A") = Done (0, ["-"%char]) /\
  EditDistance_NW_Rec_run (seq_of "-") (seq_of "") = Done (0, []).
Proof. split; by vm_compute. Qed.

(** C10: the read [tab[fin_seq]] is not within the bounds of [tab] in every
    reachable call of the helper.  On ("AA", "AA") with the threshold 1 the
    range [[0, 2)] is split; the call on [[1, 2)] declares [tab] with 2
    elements and reads [tab[2]], whatever the boundary array holds. *)
Theorem C10_tab_read_out_of_bounds :
  (forall c0 c1 c2 : Z,
     cache_oblivious_base (seq_of "AA") 2 (seq_of "AA") 2 [c0; c1; c2] 1 2
     = OutOfBounds) /\
  EditDistance_NW_cache_oblivious 3 (seq_of "AA") (seq_of "AA") 1 = OutOfBounds.
Proof.
  split; [|by vm_compute].
  intros c0 c1 c2.
  apply (cache_oblivious_base_out_of_bounds (seq_of "AA") (seq_of "AA") 1 2 [c0; c1; c2]);
    simpl; lia.
Qed.

(** * Further properties on concrete sequences *)

(** [X4_RecMemo_second_call] on ("AC", "A"), from the empty table. *)
Lemma X4_RecMemo_second_call_witness :
  memo_ok (seq_of "AC") (seq_of "A")
          (replicate 3 (replicate 2 NOT_YET_COMPUTED)) /\
  exists r s',
    EditDistance_NW_RecMemo 4
      {| ctx_X := seq_of "AC"; ctx_Y := seq_of "A"; ctx_M := 2; ctx_N := 1 |} 0 0
      {| memo := replicate 3 (replicate 2 NOT_YET_COMPUTED); reported := [] |}
    = Done (r, s') /\
    EditDistance_NW_RecMemo 1
      {| ctx_X := seq_of "AC"; ctx_Y := seq_of "A"; ctx_M := 2; ctx_N := 1 |} 0 0 s'
    = Done (r, s').
Proof.
  assert (Hok : memo_ok (seq_of "AC") (seq_of "A")
                        (replicate 3 (replicate 2 NOT_YET_COMPUTED)))
    by exact (memo_ok_init (seq_of "AC") (seq_of "A")).
  split; [exact Hok|].
  apply (X4_RecMemo_second_call (seq_of "AC") (seq_of "A") 4 0 0
           {| memo := replicate 3 (replicate 2 NOT_YET_COMPUTED); reported := [] |});
    [simpl; lia | simpl; lia | simpl; lia | exact Hok].
Defined.

(** [X6_iteratif_is_distance_of_bases] on ("AC-G", "AG"). *)
Lemma X6_iteratif_is_distance_of_bases_witness :
  fits_int (seq_of "AC-G") (seq_of "AG") /\
  EditDistance_NW_iteratif (seq_of "AC-G") (seq_of "AG") =
  Done (lev sub_cost_iter (bases (order (seq_of "AC-G") (seq_of "AG")).1)
                          (bases (order (seq_of "AC-G") (seq_of "AG")).2)).
Proof.
  assert (Hsz : fits_int (seq_of "AC-G") (seq_of "AG")) by (vm_compute; reflexivity).
  split; [exact Hsz|].
  exact (X6_iteratif_is_distance_of_bases (seq_of "AC-G") (seq_of "AG") Hsz).
Defined.

(** [X7_cache_aware_turns] on ("ACGT", "ACT") with a budget of 80 bytes:
    blocks of 2 columns, 2 turns. *)
Lemma X7_cache_aware_turns_witness :
  fits_int (seq_of "ACGT") (seq_of "ACT") /\ 0 <= 80 < 2 ^ 31 /\
  EditDistance_NW_cache_aware 2 (seq_of "ACGT") (seq_of "ACT") 80 =
  if (Z.of_nat (length (order (seq_of "ACGT") (seq_of "ACT")).2)
      <=? Z.of_nat 2 * (80 / 40))%Z
  then EditDistance_NW_iteratif (seq_of "ACGT") (seq_of "ACT")
  else OutOfFuel.
Proof.
  assert (Hsz : fits_int (seq_of "ACGT") (seq_of "ACT")) by (vm_compute; reflexivity).
  assert (HZ : 0 <= 80 < 2 ^ 31) by lia.
  split; [exact Hsz|]. split; [exact HZ|].
  exact (X7_cache_aware_turns 2 (seq_of "ACGT") (seq_of "ACT") 80 Hsz HZ).
Defined.

(** [X9_cache_oblivious_split_out_of_bounds] on ("ACGT", "AGGT") with the
    threshold 2. *)
Lemma X9_cache_oblivious_split_out_of_bounds_witness :
  1 <= 2 /\ 2 < Z.of_nat (length (order (seq_of "ACGT") (seq_of "AGGT")).2) /\
  (length (order (seq_of "ACGT") (seq_of "AGGT")).2 < 5)%nat /\
  EditDistance_NW_cache_oblivious 5 (seq_of "ACGT") (seq_of "AGGT") 2 = OutOfBounds.
Proof.
  assert (H1 : 1 <= 2) by lia.
  assert (H2 : 2 < Z.of_nat (length (order (seq_of "ACGT") (seq_of "AGGT")).2))
    by (simpl; lia).
  assert (H3 : (length (order (seq_of "ACGT") (seq_of "AGGT")).2 < 5)%nat)
    by (simpl; lia).
  split; [exact H1|]. split; [exact H2|]. split; [exact H3|].
  exact (X9_cache_oblivious_split_out_of_bounds 5 (seq_of "ACGT") (seq_of "AGGT") 2
           H1 H2 H3).
Defined.

(** [X10_helper_inner_range_out_of_bounds] on the sub-range [[1, 2)] of
    ("AA", "AA"). *)
Lemma X10_helper_inner_range_out_of_bounds_witness :
  1 <= 1 /\ (0 < 1 <= 2)%nat /\ (2 <= length (seq_of "AA"))%nat /\
  (0 < length [0; 2; 4])%nat /\ (2 - 1 < 2)%nat /\
  cache_oblivious_helper 2 (seq_of "AA") (length (seq_of "AA"))
    (seq_of "AA") (length (seq_of "AA")) [0; 2; 4] 1 (Z.of_nat 1) (Z.of_nat 2)
  = OutOfBounds.
Proof.
  assert (H1 : 1 <= 1) by lia.
  assert (H2 : (0 < 1 <= 2)%nat) by lia.
  assert (H3 : (2 <= length (seq_of "AA"))%nat) by (simpl; lia).
  assert (H4 : (0 < length [0; 2; 4])%nat) by (simpl; lia).
  assert (H5 : (2 - 1 < 2)%nat) by lia.
  split; [exact H1|]. split; [exact H2|]. split; [exact H3|].
  split; [exact H4|]. split; [exact H5|].
  exact (X10_helper_inner_range_out_of_bounds (seq_of "AA") (seq_of "AA") 2
           [0; 2; 4] 1 1 2 H1 H2 H3 H4 H5).
Defined.

(** [X11_cache_oblivious_nonpositive_threshold] on ("A", "") with the
    threshold -1. *)
Lemma X11_cache_oblivious_nonpositive_threshold_witness :
  (-1 < 0 \/ (-1 = 0 /\ (0 < length (order (seq_of "A") (seq_of "")).2)%nat)) /\
  EditDistance_NW_cache_oblivious 3 (seq_of "A") (seq_of "") (-1) = OutOfFuel.
Proof.
  assert (H : -1 < 0 \/ (-1 = 0 /\ (0 < length (order (seq_of "A") (seq_of "")).2)%nat))
    by (left; lia).
  split; [exact H|].
  exact (X11_cache_oblivious_nonpositive_threshold 3 (seq_of "A") (seq_of "") (-1) H).
Defined.

(** [X12_engines_agree] on ("ACGT", "AGT-"). *)
Lemma X12_engines_agree_witness :
  unknown_never_same (order (seq_of "ACGT") (seq_of "AGT-")).1
                     (order (seq_of "ACGT") (seq_of "AGT-")).2 /\
  fits_int (seq_of "ACGT") (seq_of "AGT-") /\
  exists d,
    EditDistance_NW_Rec (seq_of "ACGT") (seq_of "AGT-") = Done d /\
    EditDistance_NW_iteratif (seq_of "ACGT") (seq_of "AGT-") = Done d /\
    EditDistance_NW_cache_aware 4 (seq_of "ACGT") (seq_of "AGT-") 40 = Done d /\
    EditDistance_NW_cache_oblivious 1 (seq_of "ACGT") (seq_of "AGT-") 4 = Done d.
Proof.
  assert (HU : unknown_never_same (order (seq_of "ACGT") (seq_of "AGT-")).1
                                  (order (seq_of "ACGT") (seq_of "AGT-")).2)
    by compute_done.
  assert (Hsz : fits_int (seq_of "ACGT") (seq_of "AGT-")) by (vm_compute; reflexivity).
  split; [exact HU|]. split; [exact Hsz|].
  destruct (X12_engines_agree (seq_of "ACGT") (seq_of "AGT-") HU Hsz)
    as (d & H1 & H2 & H3 & H4).
  exists d. split; [exact H1|]. split; [exact H2|]. split.
  - apply H3; [lia | simpl; lia].
  - apply H4; [lia | simpl; lia].
Defined.

(** [X13_nonbase_deletion] on ("A-C", "ACG"), deleting the [-]. *)
Lemma X13_nonbase_deletion_witness :
  same_base_symmetric (seq_of "A-C") (seq_of "ACG") /\
  same_base_respects_unknown (seq_of "A-C") (seq_of "ACG") /\
  fits_int (seq_of "A-C") (seq_of "ACG") /\
  seq_of "A-C" !! 1%nat = Some "-"%char /\
  isBase "-"%char = false /\
  EditDistance_NW_Rec (delete 1%nat (seq_of "A-C")) (seq_of "ACG")
  = EditDistance_NW_Rec (seq_of "A-C") (seq_of "ACG") /\
  EditDistance_NW_iteratif (delete 1%nat (seq_of "A-C")) (seq_of "ACG")
  = EditDistance_NW_iteratif (seq_of "A-C") (seq_of "ACG") /\
  EditDistance_NW_cache_aware 3 (delete 1%nat (seq_of "A-C")) (seq_of "ACG") 40
  = EditDistance_NW_cache_aware 3 (seq_of "A-C") (seq_of "ACG") 40 /\
  EditDistance_NW_cache_oblivious 1 (delete 1%nat (seq_of "A-C")) (seq_of "ACG") 3
  = EditDistance_NW_cache_oblivious 1 (seq_of "A-C") (seq_of "ACG") 3.
Proof.
  assert (HS : same_base_symmetric (seq_of "A-C") (seq_of "ACG")) by compute_done.
  assert (HU : same_base_respects_unknown (seq_of "A-C") (seq_of "ACG"))
    by compute_done.
  assert (Hsz : fits_int (seq_of "A-C") (seq_of "ACG")) by (vm_compute; reflexivity).
  assert (Hp : seq_of "A-C" !! 1%nat = Some "-"%char) by reflexivity.
  assert (Hc : isBase "-"%char = false) by reflexivity.
  split; [exact HS|]. split; [exact HU|]. split; [exact Hsz|].
  split; [exact Hp|]. split; [exact Hc|].
  destruct (X13_nonbase_deletion (seq_of "A-C") (seq_of "ACG") 1 "-"%char true
              HS HU Hsz Hp Hc) as (H1 & H2 & H3 & H4).
  split; [exact H1|]. split; [exact H2|]. split.
  - apply H3; [lia | simpl; lia].
  - apply H4; [lia | simpl; lia].
Defined.

(** [X14_empty_sequence] on ("", "A-C"): 2 bases, budget 8 and threshold 0
    included. *)
Lemma X14_empty_sequence_witness :
  fits_int (seq_of "A-C") [] /\
  EditDistance_NW_Rec [] (seq_of "A-C") = Done 4 /\
  EditDistance_NW_iteratif [] (seq_of "A-C") = Done 4 /\
  EditDistance_NW_cache_aware 0 [] (seq_of "A-C") 8 = Done 4 /\
  EditDistance_NW_cache_oblivious 1 [] (seq_of "A-C") 0 = Done 4.
Proof.
  assert (Hsz : fits_int (seq_of "A-C") []) by (vm_compute; reflexivity).
  split; [exact Hsz|].
  destruct (X14_empty_sequence (seq_of "A-C") true) as (H1 & H2 & H3).
  destruct (H2 Hsz) as [H2a H2b].
  split; [exact H1|]. split; [exact H2a|]. split.
  - apply H2b. lia.
  - apply H3; lia.
Defined.

(** [X15_iteratif_at_most_Rec] on ("N", "N"). *)
Lemma X15_iteratif_at_most_Rec_witness :
  fits_int (seq_of "N") (seq_of "N") /\
  exists d_iter d_rec,
    EditDistance_NW_iteratif (seq_of "N") (seq_of "N") = Done d_iter /\
    EditDistance_NW_Rec (seq_of "N") (seq_of "N") = Done d_rec /\
    d_iter <= d_rec.
Proof.
  assert (Hsz : fits_int (seq_of "N") (seq_of "N")) by (vm_compute; reflexivity).
  split; [exact Hsz|].
  exact (X15_iteratif_at_most_Rec (seq_of "N") (seq_of "N") Hsz).
Defined.

(** [X16_argument_order_where_defined] on two sequences of the same
    length. *)
Lemma X16_argument_order_where_defined_witness :
  same_base_symmetric (seq_of "ACN-") (seq_of "A-GT") /\
  same_base_respects_unknown (seq_of "ACN-") (seq_of "A-GT") /\
  fits_int (seq_of "ACN-") (seq_of "A-GT") /\
  exists d_rec d_iter,
    EditDistance_NW_Rec (seq_of "ACN-") (seq_of "A-GT") = Done d_rec /\
    EditDistance_NW_Rec (seq_of "A-GT") (seq_of "ACN-") = Done d_rec /\
    EditDistance_NW_iteratif (seq_of "ACN-") (seq_of "A-GT") = Done d_iter /\
    EditDistance_NW_iteratif (seq_of "A-GT") (seq_of "ACN-") = Done d_iter /\
    (EditDistance_NW_cache_aware 4 (seq_of "ACN-") (seq_of "A-GT") 80 = Done d_iter /\
     EditDistance_NW_cache_aware 4 (seq_of "A-GT") (seq_of "ACN-") 80 = Done d_iter) /\
    (EditDistance_NW_cache_oblivious 1 (seq_of "ACN-") (seq_of "A-GT") 4 = Done d_iter /\
     EditDistance_NW_cache_oblivious 1 (seq_of "A-GT") (seq_of "ACN-") 4 = Done d_iter).
Proof.
  assert (HS : same_base_symmetric (seq_of "ACN-") (seq_of "A-GT")) by compute_done.
  assert (HU : same_base_respects_unknown (seq_of "ACN-") (seq_of "A-GT"))
    by compute_done.
  assert (Hsz : fits_int (seq_of "ACN-") (seq_of "A-GT")) by (vm_compute; reflexivity).
  split; [exact HS|]. split; [exact HU|]. split; [exact Hsz|].
  destruct (X16_argument_order_where_defined (seq_of "ACN-") (seq_of "A-GT") HS HU Hsz)
    as (d_rec & d_iter & H1 & H2 & H3 & H4 & H5 & H6).
  exists d_rec, d_iter.
  split; [exact H1|]. split; [exact H2|]. split; [exact H3|]. split; [exact H4|].
  split.
  - apply H5; [lia | simpl; lia].
  - apply H6; [lia | simpl; lia].
Defined.
